(** * Resistojet steady-state thermal solver: a shallow embedding

    The Python module [resistojet_simulation.py] is embedded over the real
    numbers: every Python/NumPy float is a real, [np.pi] is [PI], [np.sqrt],
    [np.log] and [np.log10] are [sqrt], [ln] and [log10], a float power
    [x ** y] is [Rpower x y] and an integer power [x ** 2] is [x ^ 2].
    Arithmetic is exact and total: rounding, [nan] and [inf] are outside the
    model, and where NumPy answers [nan] or [inf] with a warning the model
    has the value of the total real function.  NumPy arrays are lists
    updated by index; the solver's arrays keep the length [NUM_STATIONS]
    and every index it uses is below it, so the default of a lookup is
    never read and no insert falls out of range.  The cubic interpolation of
    SciPy ([interp1d]) is not part of the repository and is a parameter of
    every definition that calls it.  What the solver prints, and its calls
    of the progress callback, are a list of events beside its result.

    One test of the code depends on the rounding itself: line 144 compares
    two floats with [==].  Beside its reading over the reals it is embedded
    a second time on binary64 values (module [Binary64],
    [duct_constants_binary64]), with the arithmetic of IEEE 754 that Python
    floats have. *)

From Stdlib Require Import Floats.
From Stdlib Require Import Reals Lra Lia ZArith String.
From stdpp Require Import base list.

Open Scope R_scope.

(** A decimal literal of a binary64 value is read as Python reads it: it
    stands for the nearest binary64 value. *)
Set Warnings "-inexact-float".

(** ** Module-level constants (lines 8-33 of the source) *)

Definition NUM_STATIONS : nat := 20.
Definition CHAMBER_HEIGHT : R := 0.04.
Definition CHAMBER_INNER_DIAMETER : R := 0.02.
Definition CHAMBER_WALL_THICKNESS : R := 0.001.
Definition COOLING_GAP : R := 0.001.
Definition COOLING_WALL_THICKNESS : R := 0.001.
Definition MASS_FLOW_RATE : R := 0.000005.
Definition PRESSURE : R := 1e6.
Definition HEATER_POWER : R := 70.
Definition INITIAL_TEMP : R := 300.
Definition CHAMBER_ROUGHNESS : R := 0.8e-6.
Definition COOLING_ROUGHNESS : R := 50e-6.

Definition chamber_inner_radius : R := CHAMBER_INNER_DIAMETER / 2.
Definition chamber_outer_radius : R := chamber_inner_radius + CHAMBER_WALL_THICKNESS.
Definition cooling_inner_radius : R := chamber_outer_radius.
Definition cooling_outer_radius : R := cooling_inner_radius + COOLING_GAP.
Definition cooling_jacket_outer_radius : R := cooling_outer_radius + COOLING_WALL_THICKNESS.

Definition chamber_inner_area : R := PI * chamber_inner_radius ^ 2.
Definition cooling_area : R := PI * (cooling_outer_radius ^ 2 - cooling_inner_radius ^ 2).

(** [dz = CHAMBER_HEIGHT / (NUM_STATIONS - 1)], the spacing of [z_points]. *)
Definition dz : R := CHAMBER_HEIGHT / INR (NUM_STATIONS - 1).

(** Line 276: the wall-to-coolant heat-transfer area of one station. *)
Definition cooling_heat_transfer_area : R :=
  2 * PI * chamber_outer_radius * (CHAMBER_HEIGHT / INR NUM_STATIONS).

(** Line 304: the wall-to-chamber-fluid heat-transfer area of one station. *)
Definition chamber_heat_transfer_area : R :=
  2 * PI * chamber_inner_radius * (CHAMBER_HEIGHT / INR NUM_STATIONS).

(** ** Helper functions standing for the NumPy calls *)

Definition log10 (x : R) : R := ln x / ln 10.

(** [np.max] of a non-empty array. *)
Definition np_max (l : list R) : R :=
  match l with
  | [] => 0
  | x :: xs => fold_left Rmax xs x
  end.

(** [np.mean] of an array. *)
Definition np_mean (l : list R) : R := fold_right Rplus 0 l / INR (length l).

(** [np.abs(a - b)], element by element. *)
Definition abs_diff (a b : list R) : list R :=
  zip_with (fun x y => Rabs (x - y)) a b.

#[local] Instance R_inhabited : Inhabited R := populate 0.

(** Float comparisons [<], [>] and [==] are decided. *)
#[local] Instance Rlt_decision (x y : R) : Decision (x < y) := Rlt_dec x y.
#[local] Instance Rgt_decision (x y : R) : Decision (x > y) := Rgt_dec x y.
#[local] Instance Req_decision (x y : R) : Decision (x = y) := Req_dec_T x y.

(** ** 1. Property model (lines 36-118) *)

Module Gas.
Record props : Type := mk
  { density : R; specific_heat : R; thermal_conductivity : R; viscosity : R }.
End Gas.

Module Solid.
Record props : Type := mk
  { thermal_conductivity : R; specific_heat : R; density : R }.
End Solid.

Definition hydrogen_T_data : list R :=
  [300; 500; 1000; 1500; 2000; 2500; 3000; 3500; 4000].
Definition hydrogen_rho_data : list R :=
  [0.8; 0.48; 0.24; 0.16; 0.12; 0.096; 0.08; 0.069; 0.06].
Definition hydrogen_cp_data : list R :=
  [14300; 14500; 15000; 15500; 16000; 16300; 16500; 16700; 16800].
Definition hydrogen_k_data : list R :=
  [0.18; 0.26; 0.42; 0.52; 0.60; 0.65; 0.72; 0.78; 0.84].
Definition hydrogen_mu_data : list R :=
  [8.9e-6; 12.2e-6; 19.9e-6; 26.0e-6; 31.0e-6; 35.0e-6; 38.5e-6; 41.5e-6; 44.0e-6].

Definition inconel_T_data : list R := [300; 500; 700; 900; 1100; 1300].
Definition inconel_k_data : list R := [11.4; 13.8; 16.2; 18.6; 21.0; 23.4].
Definition inconel_cp_data : list R := [435; 460; 485; 510; 535; 560].

Module Flow.
Record params : Type := mk
  { velocity : R; reynolds : R; friction_factor : R }.
End Flow.

Module Equilibrium.
Record times : Type := mk
  { time_constant : R; time_to_90_percent : R; time_to_99_percent : R }.
End Equilibrium.

(** Python exceptions, as far as the solver tells them apart: the handler
    [except Exception] of line 366 takes an exception exactly when it is an
    instance of [Exception]. *)
Record py_exception : Type := mk_exception
  { exception_name : string; isinstance_Exception : bool }.

(** What one call of the progress callback does. *)
Inductive callback_outcome : Type :=
| cb_returns
| cb_raises (e : py_exception).

(** The callback is called with [(iteration, max_iterations, max_diff)]. *)
Definition callback : Type := Z -> Z -> R -> callback_outcome.

(** What the solver prints or calls, in order. *)
Inductive event : Type :=
| ev_callback (iteration max_iterations : Z) (max_diff : R)
| ev_print_callback_error (e : py_exception)
| ev_print_converged (iterations : Z)
| ev_print_warning_max_iterations
| ev_print_current_max_diff (max_diff : R).

(** How a call of [steady_state_simulation] ends. *)
Inductive outcome : Type :=
| returns (T_chamber_wall T_cooling_fluid T_chamber_fluid : list R)
          (iterations_completed : Z)
| raises_UnboundLocalError
| raises_from_callback (e : py_exception).

(** [prev_max_diff] starts as [float('inf')]. *)
Inductive ext_real : Type :=
| finite (x : R)
| plus_inf.

(** [x > y] for a float [x] and a possibly infinite [y]. *)
Definition gt_ext (x : R) (y : ext_real) : bool :=
  match y with
  | finite y' => bool_decide (x > y')
  | plus_inf => false
  end.

(** An interpolant that answers the first tabulated value everywhere; the
    examples instantiate the parameter [interp1d_cubic] with it. *)
Definition first_value_interp (xs ys : list R) (T : R) : R := hd 0 ys.

(** ** The chamber area as the binary64 value that the module computes

    Lines 10, 21 and 27 on binary64 values, rounded to nearest as Python
    rounds them.  [x ** 2] is the rounded product [x * x]. *)
Module Binary64.

Definition CHAMBER_INNER_DIAMETER : float := 0.02%float.

(** [np.pi], the binary64 value nearest to pi: 3.141592653589793. *)
Definition np_pi : float := 0x1.921fb54442d18p+1%float.

Definition chamber_inner_radius : float := (CHAMBER_INNER_DIAMETER / 2)%float.

Definition chamber_inner_area : float :=
  (np_pi * (chamber_inner_radius * chamber_inner_radius))%float.

End Binary64.

(** The real number that a finite binary64 value stands for; [inf] and
    [nan] stand for none and are given 0. *)
Definition float_value (x : float) : R :=
  match Prim2SF x with
  | S754_finite s m e => (if s then -1 else 1) * IZR (Zpos m) * powerRZ 2 e
  | _ => 0
  end.

Section Model.

(** [interp1d_cubic xs ys] stands for
    [interp1d(xs, ys, kind='cubic', fill_value='extrapolate')]. *)
Variable interp1d_cubic : list R -> list R -> R -> R.

Definition hydrogen_properties (T : R) : Gas.props :=
  let rho := interp1d_cubic hydrogen_T_data hydrogen_rho_data T in
  let cp := interp1d_cubic hydrogen_T_data hydrogen_cp_data T in
  let k := interp1d_cubic hydrogen_T_data hydrogen_k_data T in
  let mu := interp1d_cubic hydrogen_T_data hydrogen_mu_data T in
  {| Gas.density := rho; Gas.specific_heat := cp;
     Gas.thermal_conductivity := k; Gas.viscosity := mu |}.

Definition inconel_properties (T : R) : Solid.props :=
  let rho := 8190 in
  let k := interp1d_cubic inconel_T_data inconel_k_data T in
  let cp := interp1d_cubic inconel_T_data inconel_cp_data T in
  {| Solid.thermal_conductivity := k; Solid.specific_heat := cp;
     Solid.density := rho |}.

(** ** 2. Flow model (lines 121-180) *)

(** Lines 143-149: hydraulic diameter and roughness, chosen by [area]. *)
Definition duct_constants (area : R) : R * R :=
  if bool_decide (area = chamber_inner_area)
  then (CHAMBER_INNER_DIAMETER, CHAMBER_ROUGHNESS)
  else (2 * COOLING_GAP, COOLING_ROUGHNESS).

(** Lines 154-159: laminar law below 2300, Blasius from there on. *)
Definition smooth_friction_factor (reynolds : R) : R :=
  if bool_decide (reynolds < 2300)
  then 64 / reynolds
  else 0.316 * Rpower reynolds (-0.25).

(** Line 164: the nested function [colebrook_white]. *)
Definition colebrook_white (roughness hydraulic_diameter reynolds f : R) : R :=
  1 / sqrt f
  + 2 * log10 (roughness / (3.7 * hydraulic_diameter) + 2.51 / (reynolds * sqrt f)).

(** Line 169: one new estimate [f_new] from [f_old]. *)
Definition colebrook_update (roughness hydraulic_diameter reynolds f_old : R) : R :=
  (1 / (-2 * log10 (roughness / (3.7 * hydraulic_diameter)
                     + 2.51 / (reynolds * sqrt f_old)))) ^ 2.

(** Lines 167-172: [for _ in range(n)] with its [break]; the value is the
    [f_old] the loop ends with. *)
Fixpoint colebrook_loop (n : nat) (roughness hydraulic_diameter reynolds f_old : R) : R :=
  match n with
  | O => f_old
  | S n' =>
      let f_new := colebrook_update roughness hydraulic_diameter reynolds f_old in
      if bool_decide (Rabs (f_new - f_old) < 1e-6)
      then f_old
      else colebrook_loop n' roughness hydraulic_diameter reynolds f_new
  end.

Definition calculate_flow_parameters (T area mass_flow pressure : R) : Flow.params :=
  let props := hydrogen_properties T in
  let velocity := mass_flow / (Gas.density props * area) in
  let '(hydraulic_diameter, roughness) := duct_constants area in
  let reynolds :=
    Gas.density props * velocity * hydraulic_diameter / Gas.viscosity props in
  let friction_factor := smooth_friction_factor reynolds in
  let friction_factor :=
    if bool_decide (reynolds > 4000)
    then colebrook_loop 10 roughness hydraulic_diameter reynolds friction_factor
    else friction_factor in
  {| Flow.velocity := velocity; Flow.reynolds := reynolds;
     Flow.friction_factor := friction_factor |}.

(** Lines 143-149 as the code runs them: [area == chamber_inner_area]
    compares two binary64 values. *)
Definition duct_constants_binary64 (area : float) : R * R :=
  if PrimFloat.eqb area Binary64.chamber_inner_area
  then (CHAMBER_INNER_DIAMETER, CHAMBER_ROUGHNESS)
  else (2 * COOLING_GAP, COOLING_ROUGHNESS).

(** [calculate_flow_parameters] at a binary64 [area]: the test of line 144
    is made on the binary64 value, the arithmetic on the real number that
    [area] stands for. *)
Definition calculate_flow_parameters_binary64
    (T : R) (area : float) (mass_flow pressure : R) : Flow.params :=
  let props := hydrogen_properties T in
  let velocity := mass_flow / (Gas.density props * float_value area) in
  let '(hydraulic_diameter, roughness) := duct_constants_binary64 area in
  let reynolds :=
    Gas.density props * velocity * hydraulic_diameter / Gas.viscosity props in
  let friction_factor := smooth_friction_factor reynolds in
  let friction_factor :=
    if bool_decide (reynolds > 4000)
    then colebrook_loop 10 roughness hydraulic_diameter reynolds friction_factor
    else friction_factor in
  {| Flow.velocity := velocity; Flow.reynolds := reynolds;
     Flow.friction_factor := friction_factor |}.

(** ** 3. Heat-transfer model (lines 183-226) *)

(** Lines 216-221: the Nusselt number from the Reynolds and Prandtl numbers. *)
Definition nusselt_number (hydraulic_diameter reynolds prandtl : R) : R :=
  if bool_decide (reynolds < 2300)
  then 3.66 + (0.0668 * (hydraulic_diameter / CHAMBER_HEIGHT) * reynolds * prandtl)
              / (1 + 0.04 * Rpower ((hydraulic_diameter / CHAMBER_HEIGHT)
                                    * reynolds * prandtl) (2 / 3))
  else 0.023 * Rpower reynolds 0.8 * Rpower prandtl 0.4.

Definition calculate_heat_transfer
    (T_fluid T_wall : R) (area_type : string) (hydraulic_diameter : R) : R :=
  let props := hydrogen_properties T_fluid in
  let '(area, roughness) :=
    if String.eqb area_type "chamber"
    then (chamber_inner_area, CHAMBER_ROUGHNESS)
    else (cooling_area, COOLING_ROUGHNESS) in
  let flow_params := calculate_flow_parameters T_fluid area MASS_FLOW_RATE PRESSURE in
  let reynolds := Flow.reynolds flow_params in
  let prandtl :=
    Gas.specific_heat props * Gas.viscosity props / Gas.thermal_conductivity props in
  let nusselt := nusselt_number hydraulic_diameter reynolds prandtl in
  let h := nusselt * Gas.thermal_conductivity props / hydraulic_diameter in
  h.

(** ** 4. Steady-state solver (lines 229-385) *)

(** The local variables of [steady_state_simulation] that live across
    iterations; [iteration] and [max_diff] are unbound ([None]) until the
    loop body has run once. *)
Record locals : Type := mk_locals
  { T_cooling_fluid : list R;
    T_chamber_wall : list R;
    T_chamber_fluid : list R;
    relaxation_factor : R;
    prev_max_diff : ext_real;
    iteration : option Z;
    max_diff : option R }.

(** Lines 264-285: the body of the coolant loop at station [i]. *)
Definition coolant_station (T_chamber_wall T_cooling_fluid : list R) (i : nat) : list R :=
  let props_cooling := hydrogen_properties (T_cooling_fluid !!! i) in
  let h_cooling :=
    calculate_heat_transfer (T_cooling_fluid !!! i) (T_chamber_wall !!! i)
                            "cooling" (2 * COOLING_GAP) in
  let q_cooling :=
    h_cooling * cooling_heat_transfer_area
    * (T_chamber_wall !!! i - T_cooling_fluid !!! i) in
  let dT_cooling := q_cooling / (MASS_FLOW_RATE * Gas.specific_heat props_cooling) in
  <[(i + 1)%nat := T_cooling_fluid !!! i + dT_cooling]> T_cooling_fluid.

(** Line 263: [for i in range(NUM_STATIONS-1)]. *)
Definition coolant_pass (T_chamber_wall T_cooling_fluid : list R) : list R :=
  fold_left (coolant_station T_chamber_wall) (seq 0 (NUM_STATIONS - 1)) T_cooling_fluid.

(** Lines 292-315: the body of the chamber-fluid loop at station [i]. *)
Definition chamber_station
    (heater_power_distribution T_chamber_wall T_chamber_fluid : list R) (i : nat) : list R :=
  let props_chamber := hydrogen_properties (T_chamber_fluid !!! i) in
  let h_chamber :=
    calculate_heat_transfer (T_chamber_fluid !!! i) (T_chamber_wall !!! i)
                            "chamber" CHAMBER_INNER_DIAMETER in
  let q_heater := heater_power_distribution !!! i in
  let q_wall :=
    h_chamber * chamber_heat_transfer_area
    * (T_chamber_wall !!! i - T_chamber_fluid !!! i) in
  let q_total := q_heater + q_wall in
  let dT_chamber := q_total / (MASS_FLOW_RATE * Gas.specific_heat props_chamber) in
  <[(i - 1)%nat := T_chamber_fluid !!! i + dT_chamber]> T_chamber_fluid.

(** Lines 289-291: the boundary assignment at index [-1], then
    [for i in range(NUM_STATIONS-1, 0, -1)]. *)
Definition chamber_pass
    (heater_power_distribution T_chamber_wall T_cooling_fluid T_chamber_fluid : list R)
    : list R :=
  let T_chamber_fluid :=
    <[(length T_chamber_fluid - 1)%nat :=
        T_cooling_fluid !!! (length T_cooling_fluid - 1)%nat]> T_chamber_fluid in
  fold_left (chamber_station heater_power_distribution T_chamber_wall)
            (rev (seq 1 (NUM_STATIONS - 1))) T_chamber_fluid.

(** Lines 319-357: the body of the wall loop at station [i]. *)
Definition wall_station
    (relaxation_factor : R)
    (heater_power_distribution T_cooling_fluid T_chamber_fluid T_chamber_wall : list R)
    (i : nat) : list R :=
  let h_cooling :=
    calculate_heat_transfer (T_cooling_fluid !!! i) (T_chamber_wall !!! i)
                            "cooling" (2 * COOLING_GAP) in
  let h_chamber :=
    calculate_heat_transfer (T_chamber_fluid !!! i) (T_chamber_wall !!! i)
                            "chamber" CHAMBER_INNER_DIAMETER in
  let cooling_area := 2 * PI * chamber_outer_radius * (CHAMBER_HEIGHT / INR NUM_STATIONS) in
  let chamber_area := 2 * PI * chamber_inner_radius * (CHAMBER_HEIGHT / INR NUM_STATIONS) in
  let q_cooling := h_cooling * cooling_area * (T_chamber_wall !!! i - T_cooling_fluid !!! i) in
  let q_chamber := h_chamber * chamber_area * (T_chamber_wall !!! i - T_chamber_fluid !!! i) in
  let q_heater := heater_power_distribution !!! i in
  let q_net := q_heater - q_cooling - q_chamber in
  let props_wall := inconel_properties (T_chamber_wall !!! i) in
  let wall_volume :=
    PI * (chamber_outer_radius ^ 2 - chamber_inner_radius ^ 2)
    * (CHAMBER_HEIGHT / INR NUM_STATIONS) in
  let wall_mass := Solid.density props_wall * wall_volume in
  let dT_wall :=
    q_net / (wall_mass * Solid.specific_heat props_wall) * relaxation_factor in
  <[i := T_chamber_wall !!! i + dT_wall]> T_chamber_wall.

(** Line 318: [for i in range(NUM_STATIONS)]. *)
Definition wall_pass
    (relaxation_factor : R)
    (heater_power_distribution T_cooling_fluid T_chamber_fluid T_chamber_wall : list R)
    : list R :=
  fold_left (wall_station relaxation_factor heater_power_distribution
                          T_cooling_fluid T_chamber_fluid)
            (seq 0 NUM_STATIONS) T_chamber_wall.

(** Lines 369-371: the adaptive relaxation. *)
Definition adapt_relaxation
    (iteration : Z) (max_diff : R) (prev_max_diff : ext_real) (relaxation_factor : R) : R :=
  if bool_decide (iteration > 0)%Z && gt_ext max_diff prev_max_diff
  then relaxation_factor * 0.95
  else relaxation_factor.

(** Lines 363-367: the call of the progress callback inside [try]; [Some e]
    is an exception that the handler does not take. *)
Definition call_progress_callback
    (progress_callback : option callback) (iteration max_iterations : Z) (max_diff : R)
    : option py_exception * list event :=
  match progress_callback with
  | None => (None, [])
  | Some f =>
      match f iteration max_iterations max_diff with
      | cb_returns => (None, [ev_callback iteration max_iterations max_diff])
      | cb_raises e =>
          if isinstance_Exception e
          then (None, [ev_callback iteration max_iterations max_diff;
                       ev_print_callback_error e])
          else (Some e, [ev_callback iteration max_iterations max_diff])
      end
  end.

(** How one run of the loop body ends. *)
Inductive body_exit : Type :=
| continue_loop (s : locals)
| break_loop (s : locals)
| propagate (e : py_exception).

(** Lines 259-378: the body of the outer loop at [iteration = it]. *)
Definition loop_body
    (progress_callback : option callback) (max_iterations : Z) (tolerance : R)
    (heater_power_distribution : list R) (it : Z) (s : locals)
    : body_exit * list event :=
  let T_chamber_wall_prev := T_chamber_wall s in
  let T_cooling_fluid' := coolant_pass (T_chamber_wall s) (T_cooling_fluid s) in
  let T_chamber_fluid' :=
    chamber_pass heater_power_distribution (T_chamber_wall s)
                 T_cooling_fluid' (T_chamber_fluid s) in
  let T_chamber_wall' :=
    wall_pass (relaxation_factor s) heater_power_distribution
              T_cooling_fluid' T_chamber_fluid' (T_chamber_wall s) in
  let max_diff' := np_max (abs_diff T_chamber_wall' T_chamber_wall_prev) in
  match call_progress_callback progress_callback it max_iterations max_diff' with
  | (Some e, evs) => (propagate e, evs)
  | (None, evs) =>
      let s' :=
        {| T_cooling_fluid := T_cooling_fluid';
           T_chamber_wall := T_chamber_wall';
           T_chamber_fluid := T_chamber_fluid';
           relaxation_factor :=
             adapt_relaxation it max_diff' (prev_max_diff s) (relaxation_factor s);
           prev_max_diff := finite max_diff';
           iteration := Some it;
           max_diff := Some max_diff' |} in
      if bool_decide (max_diff' < tolerance)
      then (break_loop s', evs ++ [ev_print_converged (it + 1)%Z])
      else (continue_loop s', evs)
  end.

(** Line 258: [for iteration in range(max_iterations)], over the values of
    the range that are still to come. *)
Fixpoint for_loop
    (progress_callback : option callback) (max_iterations : Z) (tolerance : R)
    (heater_power_distribution : list R) (range : list Z) (s : locals)
    : (locals + py_exception) * list event :=
  match range with
  | [] => (inl s, [])
  | it :: range' =>
      match loop_body progress_callback max_iterations tolerance
                      heater_power_distribution it s with
      | (propagate e, evs) => (inr e, evs)
      | (break_loop s', evs) => (inl s', evs)
      | (continue_loop s', evs) =>
          let '(r, evs') :=
            for_loop progress_callback max_iterations tolerance
                     heater_power_distribution range' s' in
          (r, evs ++ evs')
      end
  end.

(** [range(n)] for a Python integer [n]. *)
Definition py_range (n : Z) : list Z := map Z.of_nat (seq 0 (Z.to_nat n)).

(** Lines 247-256: the locals before the loop. *)
Definition initial_locals (relaxation_factor : R) : locals :=
  {| T_cooling_fluid := replicate NUM_STATIONS (1 * INITIAL_TEMP);
     T_chamber_wall := replicate NUM_STATIONS (1 * INITIAL_TEMP);
     T_chamber_fluid := replicate NUM_STATIONS (1 * INITIAL_TEMP);
     relaxation_factor := relaxation_factor;
     prev_max_diff := plus_inf;
     iteration := None;
     max_diff := None |}.

(** Line 253. *)
Definition heater_power_distribution : list R :=
  replicate NUM_STATIONS (1 * HEATER_POWER / INR NUM_STATIONS).

(** Lines 380-385: the warning and the return, after the loop. *)
Definition after_loop (max_iterations : Z) (s : locals) : outcome * list event :=
  match iteration s, max_diff s with
  | Some it, Some d =>
      (returns (T_chamber_wall s) (T_cooling_fluid s) (T_chamber_fluid s) (it + 1)%Z,
       if bool_decide (it = max_iterations - 1)%Z
       then [ev_print_warning_max_iterations; ev_print_current_max_diff d]
       else [])
  | _, _ => (raises_UnboundLocalError, [])
  end.

Definition steady_state_simulation
    (progress_callback : option callback) (max_iterations : Z)
    (tolerance relaxation_factor : R) : outcome * list event :=
  match for_loop progress_callback max_iterations tolerance heater_power_distribution
                 (py_range max_iterations) (initial_locals relaxation_factor) with
  | (inr e, evs) => (raises_from_callback e, evs)
  | (inl s, evs) =>
      let '(r, evs') := after_loop max_iterations s in
      (r, evs ++ evs')
  end.

(** ** 5. Equilibrium time (lines 493-523) *)

Definition calculate_equilibrium_time (T_chamber_wall : list R) (heater_power : R)
    : Equilibrium.times :=
  let props_wall := inconel_properties (np_mean T_chamber_wall) in
  let wall_volume :=
    PI * (chamber_outer_radius ^ 2 - chamber_inner_radius ^ 2) * CHAMBER_HEIGHT in
  let wall_mass := Solid.density props_wall * wall_volume in
  let wall_heat_capacity := wall_mass * Solid.specific_heat props_wall in
  let time_constant := wall_heat_capacity / (heater_power * 0.8) in
  let time_to_90_percent := - time_constant * ln 0.1 in
  let time_to_99_percent := - time_constant * ln 0.01 in
  {| Equilibrium.time_constant := time_constant;
     Equilibrium.time_to_90_percent := time_to_90_percent;
     Equilibrium.time_to_99_percent := time_to_99_percent |}.

(** ** Derived notions used by the statements below *)

(** The [k]-th estimate of the Colebrook-White iteration started at [f0]. *)
Definition colebrook_estimate
    (roughness hydraulic_diameter reynolds f0 : R) (k : nat) : R :=
  Nat.iter k (colebrook_update roughness hydraulic_diameter reynolds) f0.

(** The locals at the end of a run of the loop body at [iteration = it] that
    the callback does not leave by an exception. *)
Definition next_locals (hpd : list R) (it : Z) (s : locals) : locals :=
  let T_cooling_fluid' := coolant_pass (T_chamber_wall s) (T_cooling_fluid s) in
  let T_chamber_fluid' :=
    chamber_pass hpd (T_chamber_wall s) T_cooling_fluid' (T_chamber_fluid s) in
  let T_chamber_wall' :=
    wall_pass (relaxation_factor s) hpd T_cooling_fluid' T_chamber_fluid'
              (T_chamber_wall s) in
  let max_diff' := np_max (abs_diff T_chamber_wall' (T_chamber_wall s)) in
  {| T_cooling_fluid := T_cooling_fluid';
     T_chamber_wall := T_chamber_wall';
     T_chamber_fluid := T_chamber_fluid';
     relaxation_factor :=
       adapt_relaxation it max_diff' (prev_max_diff s) (relaxation_factor s);
     prev_max_diff := finite max_diff';
     iteration := Some it;
     max_diff := Some max_diff' |}.

(** The locals after [n] runs of the loop body, none of which left the loop. *)
Fixpoint locals_after (relaxation_factor : R) (n : nat) : locals :=
  match n with
  | O => initial_locals relaxation_factor
  | S k => next_locals heater_power_distribution (Z.of_nat k)
                       (locals_after relaxation_factor k)
  end.

(** The convergence metric of iteration [k] (counted from 0). *)
Definition max_diff_at (relaxation_factor : R) (k : nat) : R :=
  np_max (abs_diff (T_chamber_wall (locals_after relaxation_factor (S k)))
                   (T_chamber_wall (locals_after relaxation_factor k))).

(** The number of runs of the loop body when the loop starts at iteration
    [a] with [n] values of the range to come and no exception leaves it. *)
Fixpoint iterations_run (tolerance relaxation_factor : R) (a n : nat) : nat :=
  match n with
  | O => O
  | S n' =>
      if bool_decide (max_diff_at relaxation_factor a < tolerance)
      then 1%nat
      else S (iterations_run tolerance relaxation_factor (S a) n')
  end.

(** The events of such a loop. *)
Fixpoint run_events (cb : option callback) (max_iterations : Z)
    (tolerance relaxation_factor : R) (a n : nat) : list event :=
  match n with
  | O => []
  | S n' =>
      (call_progress_callback cb (Z.of_nat a) max_iterations
                              (max_diff_at relaxation_factor a)).2
      ++ if bool_decide (max_diff_at relaxation_factor a < tolerance)
         then [ev_print_converged (Z.of_nat a + 1)%Z]
         else run_events cb max_iterations tolerance relaxation_factor (S a) n'
  end.

(** A callback whose exceptions are all instances of [Exception]. *)
Definition raises_only_Exception (f : callback) : Prop :=
  forall (i n : Z) (d : R) (e : py_exception),
    f i n d = cb_raises e -> isinstance_Exception e = true.

(** A callback that lets no exception through, or no callback. *)
Definition callback_caught (cb : option callback) : Prop :=
  match cb with
  | Some f => raises_only_Exception f
  | None => True
  end.

(** The exceptions that the solver printed. *)
Definition callback_errors (evs : list event) : list py_exception :=
  omap (fun ev => match ev with
                  | ev_print_callback_error e => Some e
                  | _ => None
                  end) evs.

(** The exceptions that the callback [f] raises on a list of calls. *)
Definition raised_on (f : callback) (calls : list (Z * Z * R)) : list py_exception :=
  omap (fun c => match f c.1.1 c.1.2 c.2 with
                 | cb_raises e => Some e
                 | cb_returns => None
                 end) calls.

(** The calls of the callback among the events. *)
Definition callback_calls (evs : list event) : list (Z * Z * R) :=
  omap (fun ev => match ev with
                  | ev_callback i n d => Some (i, n, d)
                  | _ => None
                  end) evs.

(** What the arrays satisfy at every point of a run. *)
Definition arrays_ok (s : locals) : Prop :=
  length (T_cooling_fluid s) = NUM_STATIONS
  /\ length (T_chamber_fluid s) = NUM_STATIONS
  /\ length (T_chamber_wall s) = NUM_STATIONS
  /\ T_cooling_fluid s !!! 0%nat = INITIAL_TEMP.

(** What holds once the loop body has run. *)
Definition after_iteration_ok (s : locals) : Prop :=
  T_chamber_fluid s !!! (NUM_STATIONS - 1)%nat
  = T_cooling_fluid s !!! (NUM_STATIONS - 1)%nat
  /\ exists d : R, max_diff s = Some d /\ prev_max_diff s = finite d.

(** ** The caller [resistojet_streamlit.py] *)

(** [int(x)] for a float [x]: rounding towards zero. *)
Definition py_int (x : R) : Z :=
  if bool_decide (0 <= x) then Int_part x else (- Int_part (- x))%Z.

(** Line 108 of the caller, inside its progress callback:
    [int(30 + 70 * iteration / max_iterations)], the value given to the
    progress bar; the division of two Python integers raises
    [ZeroDivisionError] ([None]) when [max_iterations] is 0. *)
Definition progress_percent (iteration max_iterations : Z) : option Z :=
  if bool_decide (max_iterations = 0%Z)
  then None
  else Some (py_int (30 + IZR (70 * iteration) / IZR max_iterations)).

(** Lines 69-76 of the caller: the areas it computes from its sliders. *)
Definition chamber_inner_area_local (chamber_inner_diameter : R) : R :=
  let chamber_inner_radius := chamber_inner_diameter / 2 in
  PI * chamber_inner_radius ^ 2.

Definition cooling_area_local
    (chamber_inner_diameter chamber_wall_thickness cooling_gap : R) : R :=
  let chamber_inner_radius := chamber_inner_diameter / 2 in
  let chamber_outer_radius := chamber_inner_radius + chamber_wall_thickness in
  let cooling_inner_radius := chamber_outer_radius in
  let cooling_outer_radius := cooling_inner_radius + cooling_gap in
  PI * (cooling_outer_radius ^ 2 - cooling_inner_radius ^ 2).

(** Lines 156-161 of the caller: the loop that fills [v_cooling] and
    [v_chamber] over [range(num_stations)], here over the values of the
    range still to come; reading an array at an index that is not below its
    length raises [IndexError] ([None]). *)
Fixpoint velocity_loop
    (T_cooling_fluid T_chamber_fluid : list R)
    (cooling_area_local chamber_inner_area_local : R)
    (range : list nat) (v_cooling v_chamber : list R) : option (list R * list R) :=
  match range with
  | [] => Some (v_cooling, v_chamber)
  | i :: range' =>
      match T_cooling_fluid !! i with
      | None => None
      | Some T_c =>
          let v_cooling' :=
            <[i := Flow.velocity (calculate_flow_parameters
                                    T_c cooling_area_local MASS_FLOW_RATE PRESSURE)]>
              v_cooling in
          match T_chamber_fluid !! i with
          | None => None
          | Some T_f =>
              let v_chamber' :=
                <[i := Flow.velocity (calculate_flow_parameters
                                        T_f chamber_inner_area_local
                                        MASS_FLOW_RATE PRESSURE)]>
                  v_chamber in
              velocity_loop T_cooling_fluid T_chamber_fluid
                            cooling_area_local chamber_inner_area_local
                            range' v_cooling' v_chamber'
          end
      end
  end.

(** Lines 156-161 of the caller, with the two [np.zeros(num_stations)]. *)
Definition velocity_profiles
    (num_stations : nat) (T_cooling_fluid T_chamber_fluid : list R)
    (cooling_area_local chamber_inner_area_local : R) : option (list R * list R) :=
  velocity_loop T_cooling_fluid T_chamber_fluid
                cooling_area_local chamber_inner_area_local
                (seq 0 num_stations)
                (replicate num_stations 0) (replicate num_stations 0).

(** Lines 318-324 of the caller: the radius of the nozzle profile at
    height [z]. *)
Definition nozzle_radius (chamber_inner_radius chamber_height z : R) : R :=
  if bool_decide (z < chamber_height * 0.4)
  then chamber_inner_radius * (1 - 0.3 * (z / (chamber_height * 0.4)))
  else chamber_inner_radius * 0.7
       + chamber_inner_radius * 0.8 * ((z - chamber_height * 0.4) / (chamber_height * 0.6)).

(** Line 267 of the caller: the first-order curve of the wall temperature
    at time [t], from [T_initial] towards [T_final]. *)
Definition T_time (T_initial T_final time_constant t : R) : R :=
  T_initial + (T_final - T_initial) * (1 - exp (- t / time_constant)).

(** Lines 274-275 of the caller: the levels of the two horizontal markers. *)
Definition T_90 (T_initial T_final : R) : R := T_initial + 0.9 * (T_final - T_initial).

Definition T_99 (T_initial T_final : R) : R := T_initial + 0.99 * (T_final - T_initial).

(** ** Facts about the constants *)

Lemma INR_NUM_STATIONS : INR NUM_STATIONS = 20.
Proof. unfold NUM_STATIONS. simpl. lra. Qed.

Lemma INR_NUM_STATIONS_pred : INR (NUM_STATIONS - 1) = 19.
Proof. unfold NUM_STATIONS. simpl. lra. Qed.

Lemma chamber_inner_radius_value : chamber_inner_radius = 0.01.
Proof. unfold chamber_inner_radius, CHAMBER_INNER_DIAMETER. lra. Qed.

Lemma chamber_outer_radius_value : chamber_outer_radius = 0.011.
Proof.
  unfold chamber_outer_radius, CHAMBER_WALL_THICKNESS.
  rewrite chamber_inner_radius_value. lra.
Qed.

Lemma dz_value : dz = 0.04 / 19.
Proof. unfold dz, CHAMBER_HEIGHT. now rewrite INR_NUM_STATIONS_pred. Qed.

(** ** Claim C1: the heat-transfer areas *)

(** C1, as stated, fails: neither per-station area is [2 * PI * r * dz] with
    [dz = CHAMBER_HEIGHT / (NUM_STATIONS - 1)]. *)
Lemma heat_transfer_areas_are_not_dz_based :
  cooling_heat_transfer_area <> 2 * PI * chamber_outer_radius * dz
  /\ chamber_heat_transfer_area <> 2 * PI * chamber_inner_radius * dz.
Proof.
  unfold cooling_heat_transfer_area, chamber_heat_transfer_area.
  rewrite dz_value, INR_NUM_STATIONS, chamber_outer_radius_value,
    chamber_inner_radius_value.
  unfold CHAMBER_HEIGHT.
  pose proof PI_RGT_0 as HPI.
  split; intros H; nra.
Qed.

(** C1, amended: in every iteration the coolant and chamber-fluid updates
    use the areas [2 * PI * r * (CHAMBER_HEIGHT / NUM_STATIONS)], with the
    outer radius for the coolant and the inner radius for the chamber fluid;
    each is 19/20 of the area that the station spacing [dz] would give. *)
Theorem heat_transfer_areas_use_height_over_stations :
  (forall (T_chamber_wall T_cooling_fluid : list R) (i : nat),
      coolant_station T_chamber_wall T_cooling_fluid i
      = <[(i + 1)%nat :=
            T_cooling_fluid !!! i
            + calculate_heat_transfer (T_cooling_fluid !!! i) (T_chamber_wall !!! i)
                                      "cooling" (2 * COOLING_GAP)
              * (2 * PI * chamber_outer_radius * (CHAMBER_HEIGHT / 20))
              * (T_chamber_wall !!! i - T_cooling_fluid !!! i)
              / (MASS_FLOW_RATE
                 * Gas.specific_heat (hydrogen_properties (T_cooling_fluid !!! i)))]>
          T_cooling_fluid)
  /\ (forall (hpd T_chamber_wall T_chamber_fluid : list R) (i : nat),
        chamber_station hpd T_chamber_wall T_chamber_fluid i
        = <[(i - 1)%nat :=
              T_chamber_fluid !!! i
              + (hpd !!! i
                 + calculate_heat_transfer (T_chamber_fluid !!! i) (T_chamber_wall !!! i)
                                           "chamber" CHAMBER_INNER_DIAMETER
                   * (2 * PI * chamber_inner_radius * (CHAMBER_HEIGHT / 20))
                   * (T_chamber_wall !!! i - T_chamber_fluid !!! i))
                / (MASS_FLOW_RATE
                   * Gas.specific_heat (hydrogen_properties (T_chamber_fluid !!! i)))]>
            T_chamber_fluid)
  /\ cooling_heat_transfer_area = 19 / 20 * (2 * PI * chamber_outer_radius * dz)
  /\ chamber_heat_transfer_area = 19 / 20 * (2 * PI * chamber_inner_radius * dz).
Proof.
  repeat split.
  - intros Tw Tc i. unfold coolant_station, cooling_heat_transfer_area.
    now rewrite INR_NUM_STATIONS.
  - intros hpd Tw Tch i. unfold chamber_station, chamber_heat_transfer_area.
    now rewrite INR_NUM_STATIONS.
  - unfold cooling_heat_transfer_area.
    rewrite dz_value, INR_NUM_STATIONS. unfold CHAMBER_HEIGHT. lra.
  - unfold chamber_heat_transfer_area.
    rewrite dz_value, INR_NUM_STATIONS. unfold CHAMBER_HEIGHT. lra.
Qed.

(** ** Claim C9: the duct constants are chosen by equality of areas *)

Lemma duct_constants_chamber :
  duct_constants chamber_inner_area = (CHAMBER_INNER_DIAMETER, CHAMBER_ROUGHNESS).
Proof. unfold duct_constants. now rewrite bool_decide_eq_true_2. Qed.

Lemma duct_constants_other (area : R) :
  area <> chamber_inner_area ->
  duct_constants area = (2 * COOLING_GAP, COOLING_ROUGHNESS).
Proof. intros H. unfold duct_constants. now rewrite bool_decide_eq_false_2. Qed.

(** The two embeddings of [calculate_flow_parameters] differ in the test of
    line 144 only. *)
Lemma calculate_flow_parameters_binary64_eq
    (T : R) (area : float) (mass_flow pressure : R) :
  duct_constants_binary64 area = duct_constants (float_value area) ->
  calculate_flow_parameters_binary64 T area mass_flow pressure
  = calculate_flow_parameters T (float_value area) mass_flow pressure.
Proof.
  intros H. unfold calculate_flow_parameters_binary64, calculate_flow_parameters.
  rewrite H. reflexivity.
Qed.



(** ** Claim C5: the Colebrook-White refinement *)

Lemma colebrook_estimate_S (roughness hydraulic_diameter reynolds f0 : R) (k : nat) :
  colebrook_estimate roughness hydraulic_diameter reynolds f0 (S k)
  = colebrook_estimate roughness hydraulic_diameter reynolds
      (colebrook_update roughness hydraulic_diameter reynolds f0) k.
Proof. unfold colebrook_estimate. apply Nat.iter_succ_r. Qed.

(** A root of the Colebrook-White equation is a fixed point of the update
    of line 169. *)
Lemma colebrook_white_root_is_fixed_point (roughness hydraulic_diameter reynolds f : R) :
  0 < f ->
  colebrook_white roughness hydraulic_diameter reynolds f = 0 ->
  colebrook_update roughness hydraulic_diameter reynolds f = f.
Proof.
  intros Hf Hroot. unfold colebrook_white in Hroot. unfold colebrook_update.
  set (L := log10 _) in *.
  pose proof (sqrt_lt_R0 f Hf) as Hs.
  assert (HL : -2 * L = 1 / sqrt f) by lra.
  rewrite HL.
  replace (1 / (1 / sqrt f)) with (sqrt f) by (field; lra).
  simpl. rewrite Rmult_1_r. apply sqrt_sqrt. lra.
Qed.

(** The loop of lines 167-172 run for at most [n] rounds ends with one of
    the estimates [0 .. n]: the first whose successor is closer than 1e-6,
    or the [n]-th when there is none. *)
Lemma colebrook_loop_spec (n : nat) (roughness hydraulic_diameter reynolds f0 : R) :
  let est := colebrook_estimate roughness hydraulic_diameter reynolds f0 in
  exists k : nat,
    (k <= n)%nat
    /\ colebrook_loop n roughness hydraulic_diameter reynolds f0 = est k
    /\ (forall j : nat, (j < k)%nat -> ~ Rabs (est (S j) - est j) < 1e-6)
    /\ ((k < n)%nat -> Rabs (est (S k) - est k) < 1e-6).
Proof.
  revert f0. induction n as [|n IH]; intros f0 est.
  - exists 0%nat. repeat split; [lia | intros j Hj; lia | intros Hk; lia].
  - simpl. case_bool_decide as Hconv.
    + exists 0%nat. repeat split; [lia | intros j Hj; lia | intros _; exact Hconv].
    + destruct (IH (colebrook_update roughness hydraulic_diameter reynolds f0))
        as (k & Hk & Heq & Hbefore & Hstop).
      exists (S k). subst est. repeat split.
      * lia.
      * rewrite Heq. symmetry. apply colebrook_estimate_S.
      * intros [|j] Hj.
        -- exact Hconv.
        -- rewrite !colebrook_estimate_S. apply Hbefore. lia.
      * intros Hlt. rewrite !colebrook_estimate_S. apply Hstop. lia.
Qed.

(** C5: when the Reynolds number exceeds 4000 the returned friction factor
    is an estimate of the Colebrook-White fixed-point iteration started from
    the smooth-pipe value: estimate [k] for some [k <= 10], where no earlier
    pair of successive estimates was closer than 1e-6, and either [k < 10]
    and estimates [k] and [k+1] are closer than 1e-6 (early stop), or
    [k = 10], the estimate of the tenth round.  The estimates are those of
    line 169: the first is the Blasius value [0.316 * Re ** (-0.25)], each
    next one is
    [(1 / (-2 * log10(roughness / (3.7 * D) + 2.51 / (Re * sqrt(f))))) ** 2]
    of the one before, and a positive estimate that solves the
    Colebrook-White equation is repeated.  The function is total: no error
    arises. *)
Theorem colebrook_refinement_at_most_ten (T area mass_flow pressure : R) :
  let fp := calculate_flow_parameters T area mass_flow pressure in
  let reynolds := Flow.reynolds fp in
  let hydraulic_diameter := (duct_constants area).1 in
  let roughness := (duct_constants area).2 in
  let est :=
    colebrook_estimate (duct_constants area).2 (duct_constants area).1 reynolds
                       (smooth_friction_factor reynolds) in
  reynolds > 4000 ->
  (est 0%nat = 0.316 * Rpower reynolds (-0.25)
   /\ (forall j : nat,
         est (S j)
         = (1 / (-2 * (ln (roughness / (3.7 * hydraulic_diameter)
                           + 2.51 / (reynolds * sqrt (est j)))
                       / ln 10))) ^ 2)
   /\ (forall j : nat,
         0 < est j ->
         1 / sqrt (est j)
         + 2 * (ln (roughness / (3.7 * hydraulic_diameter)
                    + 2.51 / (reynolds * sqrt (est j)))
                / ln 10) = 0 ->
         est (S j) = est j))
  /\ exists k : nat,
    (k <= 10)%nat
    /\ Flow.friction_factor fp = est k
    /\ (forall j : nat, (j < k)%nat -> ~ Rabs (est (S j) - est j) < 1e-6)
    /\ ((k < 10)%nat -> Rabs (est (S k) - est k) < 1e-6)
    /\ ((forall j : nat, (j < 10)%nat -> ~ Rabs (est (S j) - est j) < 1e-6) ->
        Flow.friction_factor fp = est 10%nat).
Proof.
  intros fp reynolds hydraulic_diameter roughness est Hre.
  assert (Hstep : forall j : nat,
             est (S j) = colebrook_update roughness hydraulic_diameter reynolds (est j))
    by reflexivity.
  split.
  { split; [|split].
    - unfold est, colebrook_estimate. cbn [Nat.iter].
      unfold smooth_friction_factor. rewrite bool_decide_eq_false_2 by lra.
      reflexivity.
    - intros j. rewrite Hstep. reflexivity.
    - intros j Hpos Hroot. rewrite Hstep.
      apply colebrook_white_root_is_fixed_point; assumption. }
  assert (Hff : Flow.friction_factor fp
                = colebrook_loop 10 (duct_constants area).2 (duct_constants area).1
                                 reynolds (smooth_friction_factor reynolds)).
  { subst fp reynolds est hydraulic_diameter roughness.
    unfold calculate_flow_parameters in *.
    destruct (duct_constants area) as [D rough]. simpl in *.
    now rewrite bool_decide_eq_true_2. }
  destruct (colebrook_loop_spec 10 (duct_constants area).2 (duct_constants area).1
              reynolds (smooth_friction_factor reynolds))
    as (k & Hk & Heq & Hbefore & Hstop).
  fold est in Heq, Hbefore, Hstop.
  exists k. repeat split; try assumption.
  - now rewrite Hff.
  - intros Hnone. rewrite Hff, Heq.
    destruct (Nat.eq_dec k 10%nat) as [->|Hne]; [reflexivity|].
    exfalso. apply (Hnone k); [lia|]. apply Hstop. lia.
Qed.

(** Up to a Reynolds number of 4000 the smooth-pipe value is returned as it is. *)
Lemma friction_factor_unrefined (T area mass_flow pressure : R) :
  let fp := calculate_flow_parameters T area mass_flow pressure in
  ~ Flow.reynolds fp > 4000 ->
  Flow.friction_factor fp = smooth_friction_factor (Flow.reynolds fp).
Proof.
  intros fp. subst fp. unfold calculate_flow_parameters.
  destruct (duct_constants area) as [D rough]. simpl. intros H.
  now rewrite bool_decide_eq_false_2.
Qed.

(** ** Claim C8: the equilibrium times *)

Lemma ln_hundredth : ln 0.01 = 2 * ln 0.1.
Proof.
  replace 0.01 with (0.1 * 0.1) by lra.
  rewrite ln_mult by lra. lra.
Qed.

(** C8: for a positive heater power the divisor [0.8 * heater_power] is
    not zero and the three results are
    [wall_mass * wall_specific_heat / (0.8 * heater_power)],
    [- time_constant * ln 0.1] and [- time_constant * ln 0.01], the wall
    mass being the density times the volume of the whole wall; the function
    is a closed expression of its arguments, so the third is twice the
    second. *)
Theorem equilibrium_time_formulas (T_chamber_wall : list R) (heater_power : R) :
  heater_power > 0 ->
  let r := calculate_equilibrium_time T_chamber_wall heater_power in
  let props_wall := inconel_properties (np_mean T_chamber_wall) in
  let wall_volume :=
    PI * (chamber_outer_radius ^ 2 - chamber_inner_radius ^ 2) * CHAMBER_HEIGHT in
  let wall_mass := Solid.density props_wall * wall_volume in
  let wall_specific_heat := Solid.specific_heat props_wall in
  0.8 * heater_power <> 0
  /\ Equilibrium.time_constant r
     = (wall_mass * wall_specific_heat) / (0.8 * heater_power)
  /\ Equilibrium.time_to_90_percent r = - Equilibrium.time_constant r * ln 0.1
  /\ Equilibrium.time_to_99_percent r = - Equilibrium.time_constant r * ln 0.01
  /\ Equilibrium.time_to_99_percent r = 2 * Equilibrium.time_to_90_percent r.
Proof.
  intros Hpos r props_wall wall_volume wall_mass wall_specific_heat.
  subst r. unfold calculate_equilibrium_time. cbn [Equilibrium.time_constant
    Equilibrium.time_to_90_percent Equilibrium.time_to_99_percent].
  fold props_wall. fold wall_volume. fold wall_mass. fold wall_specific_heat.
  repeat split.
  - lra.
  - now rewrite (Rmult_comm heater_power 0.8).
  - rewrite ln_hundredth. lra.
Qed.

(** ** Claim C3: the correlations at the regime switch *)

Lemma div_lt_upper (a b c : R) : 0 < b -> a < c * b -> a / b < c.
Proof.
  intros Hb H. apply Rmult_lt_reg_r with b; [assumption|].
  unfold Rdiv. rewrite Rmult_assoc, Rinv_l by lra. lra.
Qed.

Lemma div_gt_lower (a b c : R) : 0 < b -> c * b < a -> c < a / b.
Proof.
  intros Hb H. apply Rmult_lt_reg_r with b; [assumption|].
  unfold Rdiv. rewrite Rmult_assoc, Rinv_l by lra. lra.
Qed.

Lemma pow_lt_ln (x c : R) (p q : nat) :
  0 < x -> 0 < c -> x ^ p < c ^ q -> INR p * ln x < INR q * ln c.
Proof.
  intros Hx Hc H. rewrite <- !ln_pow by assumption.
  apply ln_increasing; [now apply pow_lt | exact H].
Qed.

Lemma Rpower_lt_bound (x y c : R) :
  0 < c -> y * ln x < ln c -> Rpower x y < c.
Proof.
  intros Hc H. unfold Rpower.
  pose proof (exp_increasing _ _ H) as He. now rewrite (exp_ln c Hc) in He.
Qed.

Lemma Rpower_gt_bound (x y c : R) :
  0 < c -> ln c < y * ln x -> c < Rpower x y.
Proof.
  intros Hc H. unfold Rpower.
  pose proof (exp_increasing _ _ H) as He. now rewrite (exp_ln c Hc) in He.
Qed.

Lemma Rpower_neg_quarter_gt (x c : R) :
  0 < x -> 0 < c -> x < c ^ 4 -> / c < Rpower x (-0.25).
Proof.
  intros Hx Hc H. apply Rpower_gt_bound; [now apply Rinv_0_lt_compat|].
  rewrite ln_Rinv by assumption.
  pose proof (pow_lt_ln x c 1 4 Hx Hc) as Hln. simpl INR in Hln.
  rewrite pow_1 in Hln. specialize (Hln H). lra.
Qed.

Lemma Rpower_neg_quarter_lt (x c : R) :
  0 < x -> 0 < c -> c ^ 4 < x -> Rpower x (-0.25) < / c.
Proof.
  intros Hx Hc H. apply Rpower_lt_bound; [now apply Rinv_0_lt_compat|].
  rewrite ln_Rinv by assumption.
  pose proof (pow_lt_ln c x 4 1 Hc Hx) as Hln. simpl INR in Hln.
  rewrite pow_1 in Hln. specialize (Hln H). lra.
Qed.

Lemma Rpower_two_thirds_lt (x c : R) :
  0 < x -> 0 < c -> x ^ 2 < c ^ 3 -> Rpower x (2 / 3) < c.
Proof.
  intros Hx Hc H. apply Rpower_lt_bound; [assumption|].
  pose proof (pow_lt_ln x c 2 3 Hx Hc H) as Hln. simpl INR in Hln. lra.
Qed.

Lemma Rpower_four_fifths_lt (x c : R) :
  0 < x -> 0 < c -> x ^ 4 < c ^ 5 -> Rpower x 0.8 < c.
Proof.
  intros Hx Hc H. apply Rpower_lt_bound; [assumption|].
  pose proof (pow_lt_ln x c 4 5 Hx Hc H) as Hln. simpl INR in Hln. lra.
Qed.

Lemma Rpower_base_1 (y : R) : Rpower 1 y = 1.
Proof. unfold Rpower. rewrite ln_1, Rmult_0_r. apply exp_0. Qed.

Lemma smooth_friction_factor_laminar (reynolds : R) :
  reynolds < 2300 -> smooth_friction_factor reynolds = 64 / reynolds.
Proof. intros H. unfold smooth_friction_factor. now rewrite bool_decide_eq_true_2. Qed.

Lemma smooth_friction_factor_blasius (reynolds : R) :
  2300 <= reynolds ->
  smooth_friction_factor reynolds = 0.316 * Rpower reynolds (-0.25).
Proof.
  intros H. unfold smooth_friction_factor.
  rewrite bool_decide_eq_false_2; [reflexivity | lra].
Qed.

Lemma friction_2299_upper : smooth_friction_factor 2299 < 0.02784.
Proof. rewrite smooth_friction_factor_laminar by lra. lra. Qed.

Lemma friction_2301_bounds :
  0.04514 < smooth_friction_factor 2301 < 0.04567.
Proof.
  rewrite smooth_friction_factor_blasius by lra.
  pose proof (Rpower_neg_quarter_gt 2301 7 ltac:(lra) ltac:(lra) ltac:(lra)) as Hlo.
  pose proof (Rpower_neg_quarter_lt 2301 6.92 ltac:(lra) ltac:(lra) ltac:(lra)) as Hhi.
  split; lra.
Qed.

Lemma friction_2300_lower : 0.04514 < smooth_friction_factor 2300.
Proof.
  rewrite smooth_friction_factor_blasius by lra.
  pose proof (Rpower_neg_quarter_gt 2300 7 ltac:(lra) ltac:(lra) ltac:(lra)) as Hlo.
  lra.
Qed.

Lemma friction_just_below_2300 (x : R) :
  2299 <= x < 2300 -> smooth_friction_factor x < 0.02784.
Proof.
  intros [Hlo Hhi]. rewrite smooth_friction_factor_laminar by assumption.
  apply div_lt_upper; lra.
Qed.

Lemma nusselt_laminar (hydraulic_diameter reynolds prandtl : R) :
  reynolds < 2300 ->
  nusselt_number hydraulic_diameter reynolds prandtl
  = 3.66 + (0.0668 * (hydraulic_diameter / CHAMBER_HEIGHT) * reynolds * prandtl)
           / (1 + 0.04 * Rpower ((hydraulic_diameter / CHAMBER_HEIGHT)
                                 * reynolds * prandtl) (2 / 3)).
Proof. intros H. unfold nusselt_number. now rewrite bool_decide_eq_true_2. Qed.

Lemma nusselt_turbulent (hydraulic_diameter reynolds prandtl : R) :
  2300 <= reynolds ->
  nusselt_number hydraulic_diameter reynolds prandtl
  = 0.023 * Rpower reynolds 0.8 * Rpower prandtl 0.4.
Proof.
  intros H. unfold nusselt_number.
  rewrite bool_decide_eq_false_2; [reflexivity | lra].
Qed.

Lemma nusselt_chamber_2299_lower :
  17.9 < nusselt_number CHAMBER_INNER_DIAMETER 2299 1.
Proof.
  rewrite nusselt_laminar by lra.
  unfold CHAMBER_INNER_DIAMETER, CHAMBER_HEIGHT.
  replace (0.02 / 0.04 * 2299 * 1) with 1149.5 by lra.
  replace (0.0668 * (0.02 / 0.04) * 2299 * 1) with 76.7866 by lra.
  pose proof (Rpower_two_thirds_lt 1149.5 109.8 ltac:(lra) ltac:(lra) ltac:(lra)) as Hp.
  assert (Hpos : 0 < Rpower 1149.5 (2 / 3)) by apply exp_pos.
  set (P := Rpower 1149.5 (2 / 3)) in *.
  assert (Hq : 14.24 < 76.7866 / (1 + 0.04 * P)) by (apply div_gt_lower; lra).
  lra.
Qed.

Lemma nusselt_chamber_2301_upper :
  nusselt_number CHAMBER_INNER_DIAMETER 2301 1 < 11.27.
Proof.
  rewrite nusselt_turbulent by lra. rewrite Rpower_base_1.
  pose proof (Rpower_four_fifths_lt 2301 490 ltac:(lra) ltac:(lra) ltac:(lra)) as Hp.
  lra.
Qed.

(** C3, as stated, fails: the friction factor is not continuous at the
    switch, and between the two samples it differs by more than 0.017, which
    is more than 60 percent of its value at Re = 2299. *)
Lemma friction_factor_discontinuous_at_2300 :
  ~ continuity_pt smooth_friction_factor 2300
  /\ smooth_friction_factor 2301 - smooth_friction_factor 2299 > 0.017
  /\ smooth_friction_factor 2301 - smooth_friction_factor 2299
     > 0.6 * smooth_friction_factor 2299.
Proof.
  pose proof friction_2299_upper as H99.
  pose proof friction_2301_bounds as [H01 _].
  split; [|split; lra].
  intros Hcont.
  destruct (Hcont 0.01 ltac:(lra)) as (alp & Halp & Hlim).
  set (x := 2300 - Rmin (alp / 2) 1).
  assert (Hmin_pos : 0 < Rmin (alp / 2) 1) by (apply Rmin_glb_lt; lra).
  pose proof (Rmin_l (alp / 2) 1) as Hmin_l.
  pose proof (Rmin_r (alp / 2) 1) as Hmin_r.
  assert (Hx : 2299 <= x < 2300) by (unfold x; lra).
  specialize (Hlim x).
  assert (Hpre : D_x no_cond 2300 x /\ dist R_met x 2300 < alp).
  { split.
    - split; [exact I | lra].
    - simpl. unfold Rdist. rewrite Rabs_left by lra. unfold x. lra. }
  specialize (Hlim Hpre). simpl in Hlim. unfold Rdist in Hlim.
  pose proof (friction_just_below_2300 x Hx) as Hbelow.
  pose proof friction_2300_lower as H00.
  rewrite Rabs_left in Hlim by lra. lra.
Qed.

(** C3, amended: each correlation changes formula at Re = 2300, the
    laminar one strictly below and the turbulent one at and above, and the
    two formulas do not meet there.  Between Re = 2299 and Re = 2301 the
    friction factor rises by more than 0.017 and less than 0.018, and the
    Nusselt number of the chamber duct at a Prandtl number of 1 falls by
    more than 6. *)
Theorem correlations_jump_at_regime_switch :
  smooth_friction_factor 2299 = 64 / 2299
  /\ smooth_friction_factor 2300 = 0.316 * Rpower 2300 (-0.25)
  /\ smooth_friction_factor 2301 = 0.316 * Rpower 2301 (-0.25)
  /\ 0.017 < smooth_friction_factor 2301 - smooth_friction_factor 2299 < 0.018
  /\ (forall D Pr : R,
        nusselt_number D 2299 Pr
        = 3.66 + (0.0668 * (D / CHAMBER_HEIGHT) * 2299 * Pr)
                 / (1 + 0.04 * Rpower ((D / CHAMBER_HEIGHT) * 2299 * Pr) (2 / 3)))
  /\ (forall D Pr : R,
        nusselt_number D 2300 Pr = 0.023 * Rpower 2300 0.8 * Rpower Pr 0.4)
  /\ (forall D Pr : R,
        nusselt_number D 2301 Pr = 0.023 * Rpower 2301 0.8 * Rpower Pr 0.4)
  /\ nusselt_number CHAMBER_INNER_DIAMETER 2299 1
     - nusselt_number CHAMBER_INNER_DIAMETER 2301 1 > 6.
Proof.
  pose proof friction_2299_upper as H99.
  pose proof friction_2301_bounds as [H01lo H01hi].
  assert (H99lo : 0.02783 < smooth_friction_factor 2299).
  { rewrite smooth_friction_factor_laminar by lra. lra. }
  pose proof nusselt_chamber_2299_lower as Hn99.
  pose proof nusselt_chamber_2301_upper as Hn01.
  split; [apply smooth_friction_factor_laminar; lra|].
  split; [apply smooth_friction_factor_blasius; lra|].
  split; [apply smooth_friction_factor_blasius; lra|].
  split; [lra|].
  split; [intros D Pr; apply nusselt_laminar; lra|].
  split; [intros D Pr; apply nusselt_turbulent; lra|].
  split; [intros D Pr; apply nusselt_turbulent; lra|].
  lra.
Qed.

(** ** The three passes: lengths and untouched stations *)

Lemma fold_left_length (f : list R -> nat -> list R) (l : list nat) (a : list R) :
  (forall (b : list R) (i : nat), length (f b i) = length b) ->
  length (fold_left f l a) = length a.
Proof.
  intros Hf. revert a. induction l as [|i l IH]; intros a; simpl; [reflexivity|].
  now rewrite IH, Hf.
Qed.

Lemma fold_left_untouched (f : list R -> nat -> list R) (j : nat) (l : list nat)
    (a : list R) :
  (forall (b : list R) (i : nat), In i l -> f b i !!! j = b !!! j) ->
  fold_left f l a !!! j = a !!! j.
Proof.
  revert a. induction l as [|i l IH]; intros a Hf; simpl; [reflexivity|].
  rewrite IH.
  - apply Hf. now left.
  - intros b i' Hi'. apply Hf. now right.
Qed.

Lemma coolant_station_length (Tw Tc : list R) (i : nat) :
  length (coolant_station Tw Tc i) = length Tc.
Proof. unfold coolant_station. apply length_insert. Qed.

Lemma coolant_pass_length (Tw Tc : list R) :
  length (coolant_pass Tw Tc) = length Tc.
Proof. apply fold_left_length. intros b i. apply coolant_station_length. Qed.

(** The coolant pass writes stations [1 .. NUM_STATIONS-1] only. *)
Lemma coolant_pass_station_0 (Tw Tc : list R) :
  coolant_pass Tw Tc !!! 0%nat = Tc !!! 0%nat.
Proof.
  apply fold_left_untouched. intros b i _. unfold coolant_station.
  apply list_lookup_total_insert_ne. lia.
Qed.

Lemma chamber_station_length (hpd Tw Tch : list R) (i : nat) :
  length (chamber_station hpd Tw Tch i) = length Tch.
Proof. unfold chamber_station. apply length_insert. Qed.

Lemma chamber_pass_length (hpd Tw Tc Tch : list R) :
  length (chamber_pass hpd Tw Tc Tch) = length Tch.
Proof.
  unfold chamber_pass. rewrite fold_left_length.
  - apply length_insert.
  - intros b i. apply chamber_station_length.
Qed.

(** The chamber-fluid pass leaves at the last station what the boundary
    assignment of line 289 put there. *)
Lemma chamber_pass_last_station (hpd Tw Tc Tch : list R) :
  length Tc = NUM_STATIONS -> length Tch = NUM_STATIONS ->
  chamber_pass hpd Tw Tc Tch !!! (NUM_STATIONS - 1)%nat
  = Tc !!! (NUM_STATIONS - 1)%nat.
Proof.
  intros HTc HTch. unfold chamber_pass. rewrite HTc, HTch.
  rewrite fold_left_untouched.
  - apply list_lookup_total_insert_eq. rewrite HTch. unfold NUM_STATIONS. lia.
  - intros b i Hi. unfold chamber_station.
    apply list_lookup_total_insert_ne.
    apply in_rev, in_seq in Hi. unfold NUM_STATIONS in *. lia.
Qed.

Lemma wall_station_length (rf : R) (hpd Tc Tch Tw : list R) (i : nat) :
  length (wall_station rf hpd Tc Tch Tw i) = length Tw.
Proof. unfold wall_station. apply length_insert. Qed.

Lemma wall_pass_length (rf : R) (hpd Tc Tch Tw : list R) :
  length (wall_pass rf hpd Tc Tch Tw) = length Tw.
Proof. apply fold_left_length. intros b i. apply wall_station_length. Qed.

(** ** The loop body and the loop *)

Lemma initial_locals_ok (rf : R) : arrays_ok (initial_locals rf).
Proof.
  unfold arrays_ok, initial_locals.
  cbn [T_cooling_fluid T_chamber_fluid T_chamber_wall].
  rewrite !length_replicate. repeat split.
  unfold NUM_STATIONS, INITIAL_TEMP. simpl. lra.
Qed.

Lemma next_locals_ok (hpd : list R) (it : Z) (s : locals) :
  arrays_ok s -> arrays_ok (next_locals hpd it s).
Proof.
  intros (HTc & HTch & HTw & H0). unfold arrays_ok, next_locals.
  cbn [T_cooling_fluid T_chamber_fluid T_chamber_wall].
  rewrite coolant_pass_length, chamber_pass_length, wall_pass_length,
    coolant_pass_station_0.
  repeat split; assumption.
Qed.

Lemma next_locals_after_iteration (hpd : list R) (it : Z) (s : locals) :
  arrays_ok s -> after_iteration_ok (next_locals hpd it s).
Proof.
  intros (HTc & HTch & HTw & H0). unfold after_iteration_ok, next_locals.
  cbn [T_cooling_fluid T_chamber_fluid T_chamber_wall max_diff prev_max_diff].
  split.
  - apply chamber_pass_last_station; [|assumption].
    now rewrite coolant_pass_length.
  - eexists. split; reflexivity.
Qed.

(** The loop body in terms of [next_locals]. *)
Lemma loop_body_eq (cb : option callback) (max_iterations : Z) (tolerance : R)
    (hpd : list R) (it : Z) (s : locals) :
  let s' := next_locals hpd it s in
  let d := np_max (abs_diff (T_chamber_wall s') (T_chamber_wall s)) in
  loop_body cb max_iterations tolerance hpd it s
  = match call_progress_callback cb it max_iterations d with
    | (Some e, evs) => (propagate e, evs)
    | (None, evs) =>
        if bool_decide (d < tolerance)
        then (break_loop s', evs ++ [ev_print_converged (it + 1)%Z])
        else (continue_loop s', evs)
    end.
Proof.
  intros s' d. subst s' d. unfold loop_body, next_locals.
  cbn [T_chamber_wall]. reflexivity.
Qed.

Lemma loop_body_state (cb : option callback) (max_iterations : Z) (tolerance : R)
    (hpd : list R) (it : Z) (s s' : locals) (evs : list event) :
  loop_body cb max_iterations tolerance hpd it s = (continue_loop s', evs)
  \/ loop_body cb max_iterations tolerance hpd it s = (break_loop s', evs) ->
  s' = next_locals hpd it s.
Proof.
  rewrite loop_body_eq. cbv zeta.
  destruct (call_progress_callback _ _ _ _) as [[e|] evs0].
  - intros [Hb|Hb]; discriminate.
  - case_bool_decide; intros [Hb|Hb]; congruence.
Qed.

(** An invariant of [next_locals] holds when the loop is left normally. *)
Lemma for_loop_invariant (P : locals -> Prop) (cb : option callback)
    (max_iterations : Z) (tolerance : R) (hpd : list R) :
  (forall (it : Z) (s : locals), P s -> P (next_locals hpd it s)) ->
  forall (range : list Z) (s s' : locals) (evs : list event),
    P s ->
    for_loop cb max_iterations tolerance hpd range s = (inl s', evs) ->
    P s'.
Proof.
  intros Hstep range. induction range as [|it range IH]; intros s s' evs Hs Hrun.
  - simpl in Hrun. congruence.
  - simpl in Hrun.
    destruct (loop_body cb max_iterations tolerance hpd it s) as [[s1|s1|e] evs1] eqn:Hbody.
    + pose proof (loop_body_state _ _ _ _ _ _ _ _ (or_introl Hbody)) as ->.
      destruct (for_loop cb max_iterations tolerance hpd range _) as [r evs2] eqn:Hrest.
      inversion Hrun; subst. eapply IH; [|exact Hrest]. now apply Hstep.
    + pose proof (loop_body_state _ _ _ _ _ _ _ _ (or_intror Hbody)) as ->.
      inversion Hrun; subst. now apply Hstep.
    + discriminate.
Qed.

Lemma for_loop_from_initial (cb : option callback) (max_iterations : Z)
    (tolerance rf : R) (range : list Z) (s : locals) (evs : list event) :
  for_loop cb max_iterations tolerance heater_power_distribution range
           (initial_locals rf) = (inl s, evs) ->
  arrays_ok s /\ (iteration s <> None -> after_iteration_ok s).
Proof.
  apply (for_loop_invariant
           (fun s => arrays_ok s /\ (iteration s <> None -> after_iteration_ok s))).
  - intros it s0 [Hok _]. split.
    + now apply next_locals_ok.
    + intros _. now apply next_locals_after_iteration.
  - split; [apply initial_locals_ok | intros H; now contradict H].
Qed.

(** What a returning call returns: the arrays of the locals the loop ended
    with, after at least one iteration. *)
Lemma steady_state_simulation_returns (cb : option callback) (max_iterations : Z)
    (tolerance rf : R) (Tw Tc Tch : list R) (n : Z) (evs : list event) :
  steady_state_simulation cb max_iterations tolerance rf
  = (returns Tw Tc Tch n, evs) ->
  exists s : locals,
    arrays_ok s /\ after_iteration_ok s
    /\ Tw = T_chamber_wall s /\ Tc = T_cooling_fluid s /\ Tch = T_chamber_fluid s
    /\ exists it : Z, iteration s = Some it /\ n = (it + 1)%Z.
Proof.
  unfold steady_state_simulation.
  destruct (for_loop _ _ _ _ _ _) as [[s|e] evs1] eqn:Hloop; [|discriminate].
  apply for_loop_from_initial in Hloop as [Hok Hafter].
  unfold after_loop.
  destruct (iteration s) as [it|] eqn:Hit; [|discriminate].
  destruct (max_diff s) as [d|] eqn:Hd; [|discriminate].
  intros Heq. inversion Heq; subst.
  exists s. repeat split; try apply Hok; try (apply Hafter; congruence).
  exists it. now split.
Qed.

(** ** Claim C2: the counter-flow boundary condition *)

(** C2: whenever the solver returns, it has run the loop body at least
    once, and in the returned arrays the chamber fluid at the last station
    equals the coolant at the last station.  The equality is made by the
    chamber-fluid step of line 289: on any two arrays of [NUM_STATIONS]
    values, whatever the chamber fluid held at its last station, the step
    leaves the coolant's last value there. *)
Theorem returned_chamber_inlet_is_coolant_outlet
    (cb : option callback) (max_iterations : Z) (tolerance rf : R)
    (Tw Tc Tch : list R) (n : Z) (evs : list event) :
  steady_state_simulation cb max_iterations tolerance rf
  = (returns Tw Tc Tch n, evs) ->
  length Tc = NUM_STATIONS /\ length Tch = NUM_STATIONS
  /\ Tch !!! (NUM_STATIONS - 1)%nat = Tc !!! (NUM_STATIONS - 1)%nat
  /\ forall hpd Tw' Tc' Tch' : list R,
       length Tc' = NUM_STATIONS -> length Tch' = NUM_STATIONS ->
       chamber_pass hpd Tw' Tc' Tch' !!! (NUM_STATIONS - 1)%nat
       = Tc' !!! (NUM_STATIONS - 1)%nat.
Proof.
  intros Hrun.
  apply steady_state_simulation_returns in Hrun
    as (s & Hok & [Hlast _] & _ & -> & -> & _).
  destruct Hok as (HTc & HTch & _).
  repeat split; auto using chamber_pass_last_station.
Qed.

(** ** Claim C10: the coolant inlet station is never written *)

(** C10: in every returned coolant array station 0 holds [INITIAL_TEMP],
    whatever the number of iterations. *)
Theorem returned_coolant_inlet_is_initial
    (cb : option callback) (max_iterations : Z) (tolerance rf : R)
    (Tw Tc Tch : list R) (n : Z) (evs : list event) :
  steady_state_simulation cb max_iterations tolerance rf
  = (returns Tw Tc Tch n, evs) ->
  Tc !!! 0%nat = INITIAL_TEMP /\ INITIAL_TEMP = 300.
Proof.
  intros Hrun.
  apply steady_state_simulation_returns in Hrun
    as (s & Hok & _ & _ & -> & _).
  destruct Hok as (_ & _ & _ & H0). split; [exact H0 | reflexivity].
Qed.

(** ** The run, iteration by iteration *)

Lemma locals_after_S (rf : R) (k : nat) :
  locals_after rf (S k)
  = next_locals heater_power_distribution (Z.of_nat k) (locals_after rf k).
Proof. reflexivity. Qed.

Lemma locals_after_ok (rf : R) (k : nat) : arrays_ok (locals_after rf k).
Proof.
  induction k as [|k IH].
  - apply initial_locals_ok.
  - rewrite locals_after_S. now apply next_locals_ok.
Qed.

Lemma locals_after_iteration (rf : R) (k : nat) :
  iteration (locals_after rf (S k)) = Some (Z.of_nat k).
Proof. reflexivity. Qed.

Lemma next_locals_max_diff (hpd : list R) (it : Z) (s : locals) :
  max_diff (next_locals hpd it s)
  = Some (np_max (abs_diff (T_chamber_wall (next_locals hpd it s)) (T_chamber_wall s))).
Proof. unfold next_locals. cbn [max_diff T_chamber_wall]. reflexivity. Qed.

Lemma next_locals_prev_max_diff (hpd : list R) (it : Z) (s : locals) :
  prev_max_diff (next_locals hpd it s)
  = finite (np_max (abs_diff (T_chamber_wall (next_locals hpd it s)) (T_chamber_wall s))).
Proof. unfold next_locals. cbn [prev_max_diff T_chamber_wall]. reflexivity. Qed.

Lemma next_locals_relaxation (hpd : list R) (it : Z) (s : locals) :
  relaxation_factor (next_locals hpd it s)
  = adapt_relaxation it
      (np_max (abs_diff (T_chamber_wall (next_locals hpd it s)) (T_chamber_wall s)))
      (prev_max_diff s) (relaxation_factor s).
Proof. unfold next_locals. cbn [relaxation_factor T_chamber_wall]. reflexivity. Qed.

Lemma locals_after_max_diff (rf : R) (k : nat) :
  max_diff (locals_after rf (S k)) = Some (max_diff_at rf k).
Proof. unfold max_diff_at. rewrite locals_after_S. apply next_locals_max_diff. Qed.

Lemma locals_after_prev_max_diff (rf : R) (k : nat) :
  prev_max_diff (locals_after rf (S k)) = finite (max_diff_at rf k).
Proof. unfold max_diff_at. rewrite locals_after_S. apply next_locals_prev_max_diff. Qed.

Lemma locals_after_relaxation (rf : R) (k : nat) :
  relaxation_factor (locals_after rf (S k))
  = adapt_relaxation (Z.of_nat k) (max_diff_at rf k)
      (prev_max_diff (locals_after rf k)) (relaxation_factor (locals_after rf k)).
Proof. unfold max_diff_at. rewrite locals_after_S. apply next_locals_relaxation. Qed.

(** The loop body at iteration [a] of a run, when the callback raises
    nothing that the handler lets through. *)
Lemma loop_body_at (cb : option callback) (max_iterations : Z) (tolerance rf : R)
    (a : nat) :
  (call_progress_callback cb (Z.of_nat a) max_iterations (max_diff_at rf a)).1 = None ->
  loop_body cb max_iterations tolerance heater_power_distribution (Z.of_nat a)
            (locals_after rf a)
  = let evs := (call_progress_callback cb (Z.of_nat a) max_iterations
                                      (max_diff_at rf a)).2 in
    if bool_decide (max_diff_at rf a < tolerance)
    then (break_loop (locals_after rf (S a)),
          evs ++ [ev_print_converged (Z.of_nat a + 1)%Z])
    else (continue_loop (locals_after rf (S a)), evs).
Proof.
  unfold max_diff_at. intros Hcb. rewrite loop_body_eq. cbv zeta.
  rewrite <- locals_after_S.
  destruct (call_progress_callback cb (Z.of_nat a) max_iterations _)
    as [[e|] evs]; [discriminate|reflexivity].
Qed.

Lemma call_progress_callback_None (max_iterations it : Z) (d : R) :
  call_progress_callback None it max_iterations d = (None, []).
Proof. reflexivity. Qed.

Lemma call_progress_callback_caught (f : callback) (max_iterations it : Z) (d : R) :
  raises_only_Exception f ->
  (call_progress_callback (Some f) it max_iterations d).1 = None
  /\ callback_calls (call_progress_callback (Some f) it max_iterations d).2
     = [(it, max_iterations, d)]
  /\ callback_errors (call_progress_callback (Some f) it max_iterations d).2
     = raised_on f [(it, max_iterations, d)].
Proof.
  intros Hf. unfold call_progress_callback, raised_on. simpl.
  destruct (f it max_iterations d) as [|e] eqn:Hcall; [now repeat split|].
  rewrite (Hf _ _ _ _ Hcall). now repeat split.
Qed.

Lemma callback_caught_None (cb : option callback) (max_iterations it : Z) (d : R) :
  callback_caught cb ->
  (call_progress_callback cb it max_iterations d).1 = None.
Proof.
  destruct cb as [f|]; intros H; [|reflexivity].
  now apply call_progress_callback_caught.
Qed.

(** The loop from iteration [a] on, [n] values of the range to come. *)
Lemma for_loop_run (cb : option callback) (max_iterations : Z) (tolerance rf : R)
    (n a : nat) :
  callback_caught cb ->
  for_loop cb max_iterations tolerance heater_power_distribution
           (map Z.of_nat (seq a n)) (locals_after rf a)
  = (inl (locals_after rf (a + iterations_run tolerance rf a n)),
     run_events cb max_iterations tolerance rf a n).
Proof.
  intros Hcb. revert a. induction n as [|n IH]; intros a.
  - cbn [seq map for_loop iterations_run run_events]. now rewrite Nat.add_0_r.
  - cbn [seq map for_loop iterations_run run_events].
    rewrite loop_body_at by now apply callback_caught_None.
    cbv zeta. case_bool_decide as Hconv.
    + now rewrite Nat.add_1_r.
    + rewrite IH. now rewrite Nat.add_succ_r.
Qed.

Lemma iterations_run_bounds (tolerance rf : R) (a n : nat) :
  (iterations_run tolerance rf a n <= n)%nat
  /\ ((1 <= n)%nat -> (1 <= iterations_run tolerance rf a n)%nat).
Proof.
  revert a. induction n as [|n IH]; intros a; cbn [iterations_run].
  - split; lia.
  - case_bool_decide; [split; lia|]. destruct (IH (S a)). split; lia.
Qed.

(** The loop stops at the first iteration whose metric is below the
    tolerance, and at the end of the range when there is none. *)
Lemma iterations_run_first (tolerance rf : R) (a n : nat) :
  let k := iterations_run tolerance rf a n in
  (forall j : nat, (S j < k)%nat -> ~ max_diff_at rf (a + j) < tolerance)
  /\ ((k < n)%nat -> max_diff_at rf (a + k - 1) < tolerance)
  /\ ((forall j : nat, (j < n)%nat -> ~ max_diff_at rf (a + j) < tolerance) -> k = n).
Proof.
  revert a. induction n as [|n IH]; intros a; cbn [iterations_run].
  - repeat split; intros; lia.
  - case_bool_decide as Hconv.
    + repeat split.
      * intros j Hj. lia.
      * intros _. now replace (a + 1 - 1)%nat with a by lia.
      * intros Hnone. exfalso. apply (Hnone 0%nat); [lia|].
        now rewrite Nat.add_0_r.
    + destruct (IH (S a)) as (Hbefore & Hstop & Hnone). cbv zeta.
      repeat split.
      * intros [|j] Hj; [now rewrite Nat.add_0_r|].
        replace (a + S j)%nat with (S a + j)%nat by lia. apply Hbefore. lia.
      * intros Hlt.
        replace (a + S (iterations_run tolerance rf (S a) n) - 1)%nat
          with (S a + iterations_run tolerance rf (S a) n - 1)%nat by lia.
        apply Hstop. lia.
      * intros Hall. f_equal. apply Hnone. intros j Hj.
        replace (S a + j)%nat with (a + S j)%nat by lia. apply Hall. lia.
Qed.

(** The whole call, when no exception of the callback gets through: the
    loop runs [k] times and the rest is [after_loop] on the locals it
    reached. *)
Lemma steady_state_simulation_eq (cb : option callback) (max_iterations : Z)
    (tolerance rf : R) :
  callback_caught cb ->
  let n := Z.to_nat max_iterations in
  let k := iterations_run tolerance rf 0 n in
  steady_state_simulation cb max_iterations tolerance rf
  = ((after_loop max_iterations (locals_after rf k)).1,
     run_events cb max_iterations tolerance rf 0 n
     ++ (after_loop max_iterations (locals_after rf k)).2).
Proof.
  intros Hcb n k. unfold steady_state_simulation, py_range.
  change (initial_locals rf) with (locals_after rf 0).
  rewrite for_loop_run by assumption. rewrite Nat.add_0_l. fold n. fold k.
  now destruct (after_loop max_iterations (locals_after rf k)).
Qed.

Lemma after_loop_unbound (max_iterations : Z) (rf : R) :
  after_loop max_iterations (locals_after rf 0) = (raises_UnboundLocalError, []).
Proof. reflexivity. Qed.

Lemma after_loop_bound (max_iterations : Z) (rf : R) (k : nat) :
  let s := locals_after rf (S k) in
  after_loop max_iterations s
  = (returns (T_chamber_wall s) (T_cooling_fluid s) (T_chamber_fluid s)
             (Z.of_nat k + 1)%Z,
     if bool_decide (Z.of_nat k = max_iterations - 1)%Z
     then [ev_print_warning_max_iterations;
           ev_print_current_max_diff (max_diff_at rf k)]
     else []).
Proof.
  intros s. unfold after_loop. subst s.
  now rewrite locals_after_iteration, locals_after_max_diff.
Qed.

(** ** Claim C4: termination *)

(** C4 fails at [max_iterations = 0] (and below): the loop body never
    runs, [iteration] stays unbound, and line 380 raises
    [UnboundLocalError] where the claim has a warning and a return. *)
Theorem no_iteration_raises_UnboundLocalError
    (cb : option callback) (tolerance rf : R) :
  (steady_state_simulation cb 0 tolerance rf).1 = raises_UnboundLocalError
  /\ (steady_state_simulation cb (-1) tolerance rf).1 = raises_UnboundLocalError.
Proof. split; reflexivity. Qed.

(** X1: with [max_iterations >= 1], and a callback that raises nothing the
    handler lets through, the call returns after [k] iterations with
    [1 <= k <= max_iterations]: no earlier iteration had its metric below
    the tolerance; when [k < max_iterations] iteration [k - 1] did; and when
    no iteration did, [k = max_iterations] and the last two events are the
    warning and the metric. *)
Theorem steady_state_simulation_terminates
    (cb : option callback) (max_iterations : Z) (tolerance rf : R) :
  callback_caught cb ->
  (1 <= max_iterations)%Z ->
  exists (k : nat) (evs : list event),
    let s := locals_after rf k in
    steady_state_simulation cb max_iterations tolerance rf
    = (returns (T_chamber_wall s) (T_cooling_fluid s) (T_chamber_fluid s)
               (Z.of_nat k), evs)
    /\ (1 <= Z.of_nat k <= max_iterations)%Z
    /\ (forall j : nat, (S j < k)%nat -> ~ max_diff_at rf j < tolerance)
    /\ ((Z.of_nat k < max_iterations)%Z -> max_diff_at rf (k - 1) < tolerance)
    /\ ((forall j : nat, (Z.of_nat j < max_iterations)%Z ->
                         ~ max_diff_at rf j < tolerance) ->
        Z.of_nat k = max_iterations
        /\ exists evs0 : list event,
            evs = evs0 ++ [ev_print_warning_max_iterations;
                           ev_print_current_max_diff (max_diff_at rf (k - 1))]).
Proof.
  intros Hcb Hmax.
  pose proof (steady_state_simulation_eq cb max_iterations tolerance rf Hcb) as Heq.
  cbv zeta in Heq.
  set (n := Z.to_nat max_iterations) in *.
  pose proof (iterations_run_bounds tolerance rf 0 n) as [Hle Hge].
  pose proof (iterations_run_first tolerance rf 0 n) as (Hbefore & Hstop & Hnone).
  cbv zeta in Hbefore, Hstop, Hnone.
  set (k := iterations_run tolerance rf 0 n) in *.
  assert (Hk1 : (1 <= k)%nat) by (apply Hge; lia).
  destruct k as [|k'] eqn:Hk; [lia|].
  rewrite after_loop_bound in Heq. cbv zeta in Heq. cbn [fst snd] in Heq.
  eexists (S k'), _. cbv zeta.
  split; [rewrite Heq; do 2 f_equal; lia|].
  split; [lia|].
  split; [intros j Hj; apply (Hbefore j); lia|].
  split; [intros Hlt; apply Hstop; lia|].
  intros Hall.
  assert (Hkn : S k' = n).
  { apply Hnone. intros j Hj. apply Hall. lia. }
  split; [lia|].
  eexists. rewrite bool_decide_eq_true_2 by lia.
  replace (S k' - 1)%nat with k' by lia. reflexivity.
Qed.

(** ** Claim C6: the adaptive relaxation *)

(** Lines 370-371 on their own: the factor is multiplied by 0.95 exactly
    when the iteration is not the first and the metric exceeds the previous
    one, and its magnitude never grows. *)
Lemma adapt_relaxation_cases (it : Z) (d : R) (prev : ext_real) (rf : R) :
  ((it > 0)%Z /\ (exists p : R, prev = finite p /\ d > p) ->
   adapt_relaxation it d prev rf = rf * 0.95)
  /\ (~ ((it > 0)%Z /\ exists p : R, prev = finite p /\ d > p) ->
      adapt_relaxation it d prev rf = rf)
  /\ Rabs (adapt_relaxation it d prev rf) <= Rabs rf.
Proof.
  unfold adapt_relaxation, gt_ext.
  destruct prev as [p|]; repeat case_bool_decide; cbn [andb];
    repeat split; try reflexivity.
  all: try (intros (Hit & q & Hq & Hgt); first [discriminate | injection Hq as <-]; lra || lia).
  all: try (intros Hn; exfalso; apply Hn; split; [assumption|]; now exists p).
  all: try (rewrite Rabs_mult, (Rabs_right 0.95) by lra; pose proof (Rabs_pos rf); lra).
  all: try lra.
Qed.

Lemma adapt_relaxation_nonneg (it : Z) (d : R) (prev : ext_real) (rf : R) :
  0 <= rf -> 0 <= adapt_relaxation it d prev rf <= rf.
Proof.
  intros Hrf. unfold adapt_relaxation.
  destruct (bool_decide (it > 0)%Z && gt_ext d prev); lra.
Qed.

Lemma locals_after_relaxation_nonneg (rf0 : R) (k : nat) :
  0 <= rf0 ->
  0 <= relaxation_factor (locals_after rf0 k) <= rf0.
Proof.
  intros H0. induction k as [|k IH].
  - cbn [locals_after initial_locals relaxation_factor]. lra.
  - rewrite locals_after_relaxation.
    pose proof (adapt_relaxation_nonneg (Z.of_nat k) (max_diff_at rf0 k)
                  (prev_max_diff (locals_after rf0 k))
                  (relaxation_factor (locals_after rf0 k)) ltac:(lra)).
    lra.
Qed.

(** C6, as stated, fails for a negative factor: the update of lines
    370-371 at the second iteration, with a metric 2 after a metric 1, turns
    a factor of -1 into -0.95, which is larger. *)
Lemma negative_relaxation_factor_increases :
  adapt_relaxation 1 2 (finite 1) (-1) = -0.95
  /\ adapt_relaxation 1 2 (finite 1) (-1) > -1.
Proof.
  assert (H : adapt_relaxation 1 2 (finite 1) (-1) = -0.95).
  { unfold adapt_relaxation, gt_ext.
    rewrite (bool_decide_eq_true_2 (1 > 0)%Z) by lia.
    rewrite (bool_decide_eq_true_2 (2 > 1)) by lra.
    cbn [andb]. lra. }
  split; [exact H | rewrite H; lra].
Qed.

(** C6, amended: when the solver is called with a factor that is not
    negative, the factor after iteration [k] is not negative and is at most
    the factor before it; it is the factor before times 0.95 exactly when
    [k > 0] and the metric of iteration [k] exceeds that of iteration
    [k - 1], and the factor before otherwise; so it never exceeds the
    factor of any earlier iteration. *)
Theorem relaxation_factor_never_increases (rf0 : R) (k : nat) :
  0 <= rf0 ->
  let before := relaxation_factor (locals_after rf0 k) in
  let after := relaxation_factor (locals_after rf0 (S k)) in
  0 <= after <= before
  /\ (k = 0%nat -> after = before)
  /\ (forall j : nat, k = S j ->
        (max_diff_at rf0 (S j) > max_diff_at rf0 j -> after = before * 0.95)
        /\ (~ max_diff_at rf0 (S j) > max_diff_at rf0 j -> after = before))
  /\ (forall i : nat, (i <= k)%nat ->
        after <= relaxation_factor (locals_after rf0 i)).
Proof.
  intros H0 before after.
  pose proof (locals_after_relaxation_nonneg rf0 k H0) as Hk.
  assert (Hstep : forall m : nat,
             0 <= relaxation_factor (locals_after rf0 (S m))
               <= relaxation_factor (locals_after rf0 m)).
  { intros m. rewrite locals_after_relaxation.
    apply adapt_relaxation_nonneg. apply (locals_after_relaxation_nonneg rf0 m H0). }
  split; [apply Hstep|].
  split.
  { intros ->. subst before after. rewrite locals_after_relaxation.
    apply adapt_relaxation_cases. intros [Hit _]. lia. }
  split.
  { intros j ->. subst before after. rewrite locals_after_relaxation.
    rewrite locals_after_prev_max_diff.
    destruct (adapt_relaxation_cases (Z.of_nat (S j)) (max_diff_at rf0 (S j))
                (finite (max_diff_at rf0 j))
                (relaxation_factor (locals_after rf0 (S j)))) as (Hyes & Hno & _).
    split.
    - intros Hgt. apply Hyes. split; [lia|]. now exists (max_diff_at rf0 j).
    - intros Hle. apply Hno. intros (_ & p & Hp & Hgt). injection Hp as <-. auto. }
  intros i Hi. subst after.
  assert (Hmono : forall m : nat, (i <= m)%nat ->
             relaxation_factor (locals_after rf0 m)
             <= relaxation_factor (locals_after rf0 i)).
  { intros m Hm. induction Hm as [|m Hm IH]; [lra|].
    pose proof (Hstep m). lra. }
  apply Hmono. lia.
Qed.

(** With at least one iteration allowed and no exception getting through,
    the call returns. *)
Lemma steady_state_simulation_returns_some
    (cb : option callback) (max_iterations : Z) (tolerance rf : R) :
  callback_caught cb ->
  (1 <= max_iterations)%Z ->
  exists (Tw Tc Tch : list R) (n : Z) (evs : list event),
    steady_state_simulation cb max_iterations tolerance rf
    = (returns Tw Tc Tch n, evs).
Proof.
  intros Hcb Hmax.
  rewrite (steady_state_simulation_eq cb max_iterations tolerance rf Hcb). cbv zeta.
  pose proof (iterations_run_bounds tolerance rf 0 (Z.to_nat max_iterations))
    as [_ Hge].
  destruct (iterations_run tolerance rf 0 (Z.to_nat max_iterations)) as [|k];
    [lia|].
  rewrite after_loop_bound. cbv zeta. cbn [fst snd]. now do 5 eexists.
Qed.

(** ** Claim C7: the progress callback *)

Lemma callback_calls_app (l1 l2 : list event) :
  callback_calls (l1 ++ l2) = callback_calls l1 ++ callback_calls l2.
Proof. apply omap_app. Qed.

Lemma callback_errors_app (l1 l2 : list event) :
  callback_errors (l1 ++ l2) = callback_errors l1 ++ callback_errors l2.
Proof. apply omap_app. Qed.

Lemma raised_on_app (f : callback) (l1 l2 : list (Z * Z * R)) :
  raised_on f (l1 ++ l2) = raised_on f l1 ++ raised_on f l2.
Proof. apply omap_app. Qed.

Lemma after_loop_no_callback (max_iterations : Z) (s : locals) :
  callback_calls (after_loop max_iterations s).2 = []
  /\ callback_errors (after_loop max_iterations s).2 = [].
Proof.
  unfold after_loop.
  destruct (iteration s), (max_diff s); cbn [snd]; try now split.
  case_bool_decide; now split.
Qed.

(** The calls and the printed exceptions of the loop from iteration [a]. *)
Lemma run_events_callback (f : callback) (max_iterations : Z) (tolerance rf : R)
    (n a : nat) :
  raises_only_Exception f ->
  let evs := run_events (Some f) max_iterations tolerance rf a n in
  callback_calls evs
  = map (fun j : nat => (Z.of_nat j, max_iterations, max_diff_at rf j))
        (seq a (iterations_run tolerance rf a n))
  /\ callback_errors evs = raised_on f (callback_calls evs).
Proof.
  intros Hf. revert a. induction n as [|n IH]; intros a;
    cbn [run_events iterations_run]; cbv zeta.
  - now split.
  - destruct (call_progress_callback_caught f max_iterations (Z.of_nat a)
                (max_diff_at rf a) Hf) as (_ & Hcalls & Herrs).
    rewrite callback_calls_app, callback_errors_app, Hcalls, Herrs.
    case_bool_decide as Hconv.
    + cbn [seq map]. split; [reflexivity|].
      rewrite raised_on_app. reflexivity.
    + destruct (IH (S a)) as [IHc IHe]. cbv zeta in IHc, IHe.
      rewrite IHc, IHe. cbn [seq map]. split; [reflexivity|].
      rewrite raised_on_app. now rewrite IHc.
Qed.

(** An exception that is not an instance of [Exception] leaves the solver. *)
Lemma callback_exception_propagates (f : callback) (e : py_exception)
    (max_iterations : Z) (tolerance rf : R) :
  (forall (i n : Z) (d : R), f i n d = cb_raises e) ->
  isinstance_Exception e = false ->
  (1 <= max_iterations)%Z ->
  (steady_state_simulation (Some f) max_iterations tolerance rf).1
  = raises_from_callback e.
Proof.
  intros Hf He Hmax. unfold steady_state_simulation, py_range.
  destruct (Z.to_nat max_iterations) as [|n] eqn:Hn; [lia|].
  cbn [seq map for_loop]. rewrite loop_body_eq. cbv zeta.
  unfold call_progress_callback. rewrite Hf, He. reflexivity.
Qed.

(** C7, amended: with a callback whose exceptions are all instances of
    [Exception] the solver ends as it does with no callback; the callback
    is called once in each iteration run, in order, with the iteration
    index, [max_iterations] and the metric of that iteration; and the
    exceptions the solver prints are the ones those calls raised. *)
Theorem callback_Exception_never_propagates
    (f : callback) (max_iterations : Z) (tolerance rf : R) :
  raises_only_Exception f ->
  let with_callback := steady_state_simulation (Some f) max_iterations tolerance rf in
  let without := steady_state_simulation None max_iterations tolerance rf in
  let k := iterations_run tolerance rf 0 (Z.to_nat max_iterations) in
  with_callback.1 = without.1
  /\ callback_calls with_callback.2
     = map (fun j : nat => (Z.of_nat j, max_iterations, max_diff_at rf j)) (seq 0 k)
  /\ callback_errors with_callback.2 = raised_on f (callback_calls with_callback.2).
Proof.
  intros Hf with_callback without k. subst with_callback without.
  rewrite (steady_state_simulation_eq (Some f)) by exact Hf.
  rewrite (steady_state_simulation_eq None) by exact I.
  cbv zeta. fold k. cbn [fst snd].
  destruct (after_loop_no_callback max_iterations (locals_after rf k)) as [Hc He].
  destruct (run_events_callback f max_iterations tolerance rf
              (Z.to_nat max_iterations) 0 Hf) as [Hcalls Herrs].
  cbv zeta in Hcalls, Herrs. fold k in Hcalls.
  rewrite callback_calls_app, callback_errors_app, Hc, He, !app_nil_r.
  repeat split; assumption.
Qed.

(** ** Convergence in the last iteration allowed *)

Lemma run_events_end_converged (cb : option callback) (max_iterations : Z)
    (tolerance rf : R) (n a : nat) :
  let k := iterations_run tolerance rf a n in
  (1 <= k)%nat ->
  max_diff_at rf (a + k - 1) < tolerance ->
  exists evs0 : list event,
    run_events cb max_iterations tolerance rf a n
    = evs0 ++ [ev_print_converged (Z.of_nat (a + k))].
Proof.
  revert a. induction n as [|n IH]; intros a; cbn [iterations_run run_events];
    cbv zeta.
  - intros Hk. lia.
  - case_bool_decide as Hconv.
    + intros _ _. eexists. do 3 f_equal. lia.
    + intros _ Hlast.
      pose proof (iterations_run_bounds tolerance rf (S a) n) as [Hle Hge].
      destruct n as [|n'].
      { cbn [iterations_run] in Hlast.
        replace (a + 1 - 1)%nat with a in Hlast by lia. contradiction. }
      destruct (IH (S a)) as [evs0 Hevs]; [lia| |].
      { replace (S a + iterations_run tolerance rf (S a) (S n') - 1)%nat
          with (a + S (iterations_run tolerance rf (S a) (S n')) - 1)%nat by lia.
        exact Hlast. }
      rewrite Hevs. eexists. rewrite app_assoc. do 3 f_equal. lia.
Qed.

(** X2: when the metric falls below the tolerance for the first time in
    iteration [max_iterations - 1], the solver prints that it converged and
    then, since [iteration == max_iterations - 1] holds after the [break] as
    well, the warning that the limit was reached without convergence. *)
Theorem convergence_in_last_iteration_warns
    (cb : option callback) (max_iterations : Z) (tolerance rf : R) :
  callback_caught cb ->
  (1 <= max_iterations)%Z ->
  let n := Z.to_nat max_iterations in
  (forall j : nat, (S j < n)%nat -> ~ max_diff_at rf j < tolerance) ->
  max_diff_at rf (n - 1) < tolerance ->
  exists evs0 : list event,
    (steady_state_simulation cb max_iterations tolerance rf).2
    = evs0 ++ [ev_print_converged max_iterations;
               ev_print_warning_max_iterations;
               ev_print_current_max_diff (max_diff_at rf (n - 1))].
Proof.
  intros Hcb Hmax n Hbefore Hlast.
  rewrite (steady_state_simulation_eq cb max_iterations tolerance rf Hcb).
  cbv zeta. fold n. cbn [snd].
  pose proof (iterations_run_bounds tolerance rf 0 n) as [Hle Hge].
  pose proof (iterations_run_first tolerance rf 0 n) as (_ & Hstop & _).
  cbv zeta in Hstop.
  assert (Hk : iterations_run tolerance rf 0 n = n).
  { destruct (Nat.eq_dec (iterations_run tolerance rf 0 n) n) as [|Hne]; [assumption|].
    exfalso. apply (Hbefore (iterations_run tolerance rf 0 n - 1)%nat).
    - assert (1 <= iterations_run tolerance rf 0 n)%nat by (apply Hge; lia). lia.
    - rewrite Nat.add_0_l in Hstop. apply Hstop. lia. }
  destruct (run_events_end_converged cb max_iterations tolerance rf n 0)
    as [evs0 Hevs].
  { rewrite Hk. lia. }
  { rewrite Hk. now rewrite Nat.add_0_l. }
  rewrite Hevs, Hk, Nat.add_0_l.
  destruct n as [|n'] eqn:Hn; [lia|].
  rewrite after_loop_bound. cbv zeta. cbn [snd].
  rewrite bool_decide_eq_true_2 by lia.
  exists evs0. rewrite <- app_assoc. cbn [app].
  replace (S n' - 1)%nat with n' by lia.
  do 3 f_equal. lia.
Qed.

Lemma fold_left_fixed (f : list R -> nat -> list R) (l : list nat) (a : list R) :
  (forall (b : list R) (i : nat), f b i = b) -> fold_left f l a = a.
Proof.
  intros Hf. revert a. induction l as [|i l IH]; intros a; cbn [fold_left];
    [reflexivity|].
  now rewrite Hf.
Qed.

Lemma insert_same (l : list R) (i : nat) : <[i := l !!! i]> l = l.
Proof.
  destruct (decide (i < length l)%nat) as [Hlt|Hge].
  - apply list_insert_id. now apply list_lookup_lookup_total_lt.
  - apply list_insert_ge. lia.
Qed.

(** With a relaxation factor of 0 the wall pass changes nothing. *)
Lemma wall_pass_zero_relaxation (hpd Tc Tch Tw : list R) :
  wall_pass 0 hpd Tc Tch Tw = Tw.
Proof.
  unfold wall_pass. apply fold_left_fixed. intros b i. unfold wall_station.
  rewrite Rmult_0_r, Rplus_0_r. apply insert_same.
Qed.

Lemma np_max_abs_diff_same (l : list R) : np_max (abs_diff l l) = 0.
Proof.
  assert (Hz : forall (l0 : list R) (m : R),
             fold_left Rmax (zip_with (fun x y : R => Rabs (x - y)) l0 l0) m
             = Rmax m 0 \/ l0 = [] /\ True).
  { induction l0 as [|x l0 IH]; intros m; [right; now split|]. left.
    cbn [zip_with fold_left].
    replace (x - x) with 0 by lra. rewrite Rabs_R0.
    destruct (IH (Rmax m 0)) as [->|[-> _]].
    - unfold Rmax. repeat destruct (Rle_dec _ _); lra.
    - reflexivity. }
  unfold np_max, abs_diff. destruct l as [|x l]; [reflexivity|].
  cbn [zip_with]. replace (x - x) with 0 by lra. rewrite Rabs_R0.
  destruct (Hz l 0) as [->|[-> _]]; [|reflexivity].
  unfold Rmax. destruct (Rle_dec 0 0); reflexivity.
Qed.

Lemma max_diff_at_zero_relaxation (k : nat) : max_diff_at 0 k = 0.
Proof.
  unfold max_diff_at. rewrite locals_after_S.
  assert (Hrf : forall m : nat, relaxation_factor (locals_after 0 m) = 0).
  { intros m. pose proof (locals_after_relaxation_nonneg 0 m ltac:(lra)). lra. }
  unfold next_locals at 1. cbn [T_chamber_wall]. rewrite Hrf.
  rewrite wall_pass_zero_relaxation. apply np_max_abs_diff_same.
Qed.

(** ** More on the three passes *)

Lemma lookup_total_beyond (l : list R) (j : nat) :
  (length l <= j)%nat -> l !!! j = 0.
Proof.
  intros H. rewrite list_lookup_total_alt, lookup_ge_None_2 by lia. reflexivity.
Qed.

Lemma list_eq_total (l l' : list R) :
  length l = length l' ->
  (forall j : nat, (j < length l)%nat -> l !!! j = l' !!! j) ->
  l = l'.
Proof.
  intros Hlen H. apply list_eq. intros j.
  destruct (decide (j < length l)%nat) as [Hj|Hj].
  - rewrite (list_lookup_lookup_total_lt l j), (list_lookup_lookup_total_lt l' j)
      by lia.
    f_equal. now apply H.
  - rewrite !lookup_ge_None_2 by lia. reflexivity.
Qed.

Lemma insert_agree (b b' : list R) (i j : nat) (x : R) :
  length b = length b' ->
  (i <> j -> b !!! j = b' !!! j) ->
  <[i := x]> b !!! j = <[i := x]> b' !!! j.
Proof.
  intros Hlen H. destruct (decide (i = j)) as [->|Hne].
  - destruct (decide (j < length b)%nat) as [Hj|Hj].
    + rewrite !list_lookup_total_insert_eq by lia. reflexivity.
    + rewrite !lookup_total_beyond by (rewrite length_insert; lia). reflexivity.
  - rewrite !list_lookup_total_insert_ne by assumption. now apply H.
Qed.

(** A loop over [seq a n] whose body at [i] writes index [i] from what it
    reads at index [i]. *)
Lemma fold_left_pointwise (f : list R -> nat -> list R) (g : nat -> R -> R) :
  (forall (b : list R) (i : nat), f b i = <[i := g i (b !!! i)]> b) ->
  forall (n a : nat) (b : list R) (j : nat),
    (j < length b)%nat ->
    fold_left f (seq a n) b !!! j
    = if decide (a <= j < a + n)%nat then g j (b !!! j) else b !!! j.
Proof.
  intros Hf. induction n as [|n IH]; intros a b j Hj; cbn [seq fold_left].
  - rewrite decide_False by lia. reflexivity.
  - rewrite IH by (rewrite Hf, length_insert; exact Hj). rewrite Hf.
    destruct (decide (j = a)) as [->|Hne].
    + rewrite decide_False by lia. rewrite decide_True by lia.
      now rewrite list_lookup_total_insert_eq.
    + rewrite list_lookup_total_insert_ne by lia.
      destruct (decide (S a <= j < S a + n)%nat);
        [rewrite decide_True by lia | rewrite decide_False by lia]; reflexivity.
Qed.

(** A loop over [seq a n] whose body at [i] writes index [i + 1] from what
    it reads at index [i]: what it leaves up to index [a + n] depends on the
    array only up to index [a]. *)
Lemma fold_left_march_agree (f : list R -> nat -> list R) (g : nat -> R -> R) :
  (forall (b : list R) (i : nat), f b i = <[(i + 1)%nat := g i (b !!! i)]> b) ->
  forall (n a : nat) (b b' : list R),
    length b = length b' ->
    (forall j : nat, (j <= a)%nat -> b !!! j = b' !!! j) ->
    length (fold_left f (seq a n) b) = length (fold_left f (seq a n) b')
    /\ forall j : nat, (j <= a + n)%nat ->
         fold_left f (seq a n) b !!! j = fold_left f (seq a n) b' !!! j.
Proof.
  intros Hf. induction n as [|n IH]; intros a b b' Hlen Hagree; cbn [seq fold_left].
  - split; [exact Hlen|]. intros j Hj. apply Hagree. lia.
  - destruct (IH (S a) (f b a) (f b' a)) as [Hl Ha].
    + now rewrite !Hf, !length_insert.
    + intros j Hj. rewrite !Hf. rewrite (Hagree a) by lia.
      apply insert_agree; [exact Hlen|]. intros Hne. apply Hagree. lia.
    + split; [exact Hl|]. intros j Hj. apply Ha. lia.
Qed.

(** A loop over [n, n-1, .., 1] whose body at [i] writes index [i - 1] from
    what it reads at index [i]: what it leaves depends on the array only
    from index [n] on. *)
Lemma fold_left_descend_agree (f : list R -> nat -> list R) (g : nat -> R -> R) :
  (forall (b : list R) (i : nat), f b i = <[(i - 1)%nat := g i (b !!! i)]> b) ->
  forall (n : nat) (b b' : list R),
    length b = length b' ->
    (forall j : nat, (n <= j)%nat -> b !!! j = b' !!! j) ->
    fold_left f (rev (seq 1 n)) b = fold_left f (rev (seq 1 n)) b'.
Proof.
  intros Hf. induction n as [|n IH]; intros b b' Hlen Hagree.
  - cbn [seq rev fold_left]. apply list_eq_total; [exact Hlen|].
    intros j _. apply Hagree. lia.
  - rewrite seq_S, rev_unit. cbn [fold_left]. apply IH.
    + now rewrite !Hf, !length_insert.
    + intros j Hj. rewrite !Hf. rewrite (Hagree (1 + n)%nat) by lia.
      apply insert_agree; [exact Hlen|]. intros Hne. apply Hagree. lia.
Qed.

Lemma fold_left_fixed_on (f : list R -> nat -> list R) (l : list nat) (b : list R) :
  (forall i : nat, In i l -> f b i = b) -> fold_left f l b = b.
Proof.
  induction l as [|i l IH]; intros Hf; cbn [fold_left]; [reflexivity|].
  rewrite Hf by now left. apply IH. intros i' Hi'. apply Hf. now right.
Qed.

(** X3: the wall pass updates the array in place, and yet every station gets
    the value that the body of the loop computes from the array as it was
    before the pass: the body at station [i] reads no other station of the
    wall. *)
Theorem wall_pass_in_place_is_snapshot
    (rf : R) (hpd Tc Tch Tw : list R) (i : nat) :
  (i < NUM_STATIONS)%nat ->
  length Tw = NUM_STATIONS ->
  wall_pass rf hpd Tc Tch Tw !!! i = wall_station rf hpd Tc Tch Tw i !!! i.
Proof.
  intros Hi Hlen. unfold wall_pass.
  rewrite (fold_left_pointwise (wall_station rf hpd Tc Tch)
             (fun (i : nat) (t : R) =>
                t + (hpd !!! i
                     - calculate_heat_transfer (Tc !!! i) t "cooling" (2 * COOLING_GAP)
                       * (2 * PI * chamber_outer_radius * (CHAMBER_HEIGHT / INR NUM_STATIONS))
                       * (t - Tc !!! i)
                     - calculate_heat_transfer (Tch !!! i) t "chamber" CHAMBER_INNER_DIAMETER
                       * (2 * PI * chamber_inner_radius * (CHAMBER_HEIGHT / INR NUM_STATIONS))
                       * (t - Tch !!! i))
                    / (Solid.density (inconel_properties t)
                       * (PI * (chamber_outer_radius ^ 2 - chamber_inner_radius ^ 2)
                          * (CHAMBER_HEIGHT / INR NUM_STATIONS))
                       * Solid.specific_heat (inconel_properties t))
                    * rf)).
  - rewrite decide_True by lia. unfold wall_station.
    rewrite list_lookup_total_insert_eq by lia. reflexivity.
  - intros b j. reflexivity.
  - lia.
Qed.

Lemma coolant_station_march (Tw b : list R) (i : nat) :
  coolant_station Tw b i
  = <[(i + 1)%nat :=
        (fun (i : nat) (t : R) =>
           t + calculate_heat_transfer t (Tw !!! i) "cooling" (2 * COOLING_GAP)
               * cooling_heat_transfer_area * (Tw !!! i - t)
               / (MASS_FLOW_RATE * Gas.specific_heat (hydrogen_properties t)))
          i (b !!! i)]> b.
Proof. reflexivity. Qed.

Lemma chamber_station_descend (hpd Tw b : list R) (i : nat) :
  chamber_station hpd Tw b i
  = <[(i - 1)%nat :=
        (fun (i : nat) (t : R) =>
           t + (hpd !!! i
                + calculate_heat_transfer t (Tw !!! i) "chamber" CHAMBER_INNER_DIAMETER
                  * chamber_heat_transfer_area * (Tw !!! i - t))
               / (MASS_FLOW_RATE * Gas.specific_heat (hydrogen_properties t)))
          i (b !!! i)]> b.
Proof. reflexivity. Qed.

Lemma coolant_pass_agree (Tw b b' : list R) :
  length b = NUM_STATIONS -> length b' = NUM_STATIONS ->
  b !!! 0%nat = b' !!! 0%nat ->
  coolant_pass Tw b = coolant_pass Tw b'.
Proof.
  intros Hb Hb' H0.
  destruct (fold_left_march_agree (coolant_station Tw) _
              (coolant_station_march Tw) (NUM_STATIONS - 1) 0 b b') as [Hl Ha].
  - congruence.
  - intros j Hj. replace j with 0%nat by lia. exact H0.
  - apply list_eq_total; [exact Hl|].
    intros j Hj. apply Ha. fold (coolant_pass Tw b) in Hj.
    rewrite coolant_pass_length, Hb in Hj. unfold NUM_STATIONS in *. lia.
Qed.

(** X4: the coolant pass keeps nothing of the previous coolant profile but
    the inlet value: two arrays of [NUM_STATIONS] values with the same
    station 0 give the same result, so running the pass again on its own
    result changes nothing. *)
Theorem coolant_pass_depends_on_inlet_only (Tw Tc Tc' : list R) :
  length Tc = NUM_STATIONS ->
  length Tc' = NUM_STATIONS ->
  Tc !!! 0%nat = Tc' !!! 0%nat ->
  coolant_pass Tw Tc = coolant_pass Tw Tc'
  /\ coolant_pass Tw (coolant_pass Tw Tc) = coolant_pass Tw Tc.
Proof.
  intros HTc HTc' H0. split; [now apply coolant_pass_agree|].
  apply coolant_pass_agree.
  - now rewrite coolant_pass_length.
  - exact HTc.
  - apply coolant_pass_station_0.
Qed.

(** X5: the chamber-fluid pass keeps nothing of the previous chamber-fluid
    profile: its result depends on the coolant array through its last
    value only and not at all on the values of the chamber-fluid array, so
    running it again on its own result changes nothing. *)
Theorem chamber_pass_depends_on_coolant_outlet_only
    (hpd Tw Tc Tc' Tch Tch' : list R) :
  length Tch = NUM_STATIONS ->
  length Tch' = NUM_STATIONS ->
  Tc !!! (length Tc - 1)%nat = Tc' !!! (length Tc' - 1)%nat ->
  chamber_pass hpd Tw Tc Tch = chamber_pass hpd Tw Tc' Tch'
  /\ chamber_pass hpd Tw Tc (chamber_pass hpd Tw Tc Tch) = chamber_pass hpd Tw Tc Tch.
Proof.
  assert (Hmain : forall c c' b b' : list R,
             length b = NUM_STATIONS -> length b' = NUM_STATIONS ->
             c !!! (length c - 1)%nat = c' !!! (length c' - 1)%nat ->
             chamber_pass hpd Tw c b = chamber_pass hpd Tw c' b').
  { intros c c' b b' Hb Hb' Hlast. unfold chamber_pass.
    apply (fold_left_descend_agree (chamber_station hpd Tw) _
             (chamber_station_descend hpd Tw)).
    - now rewrite !length_insert, Hb, Hb'.
    - intros j Hj. rewrite Hb, Hb', Hlast.
      apply insert_agree; [congruence|]. intros Hne.
      rewrite !lookup_total_beyond by (unfold NUM_STATIONS in *; lia).
      reflexivity. }
  intros HTch HTch' Hlast. split; [now apply Hmain|].
  apply Hmain; [now rewrite chamber_pass_length | exact HTch | reflexivity].
Qed.

(** X6: where the wall is at the temperature of the coolant inlet, the
    coolant pass heats nothing: with the wall at [c] at stations
    [0 .. NUM_STATIONS-2] and the coolant inlet at [c], every station of
    the coolant is [c] after the pass, whatever it held before. *)
Theorem coolant_pass_isothermal (Tw Tc : list R) (c : R) :
  (forall i : nat, (i < NUM_STATIONS - 1)%nat -> Tw !!! i = c) ->
  length Tc = NUM_STATIONS ->
  Tc !!! 0%nat = c ->
  coolant_pass Tw Tc = replicate NUM_STATIONS c.
Proof.
  intros Hwall HTc H0.
  rewrite (coolant_pass_agree Tw Tc (replicate NUM_STATIONS c)).
  2: exact HTc.
  2: apply length_replicate.
  2: { rewrite H0. symmetry. apply lookup_total_replicate_2. unfold NUM_STATIONS. lia. }
  unfold coolant_pass. apply fold_left_fixed_on. intros i Hi.
  apply in_seq in Hi. unfold coolant_station.
  assert (Hc : replicate NUM_STATIONS c !!! i = c).
  { apply lookup_total_replicate_2. unfold NUM_STATIONS in *. lia. }
  rewrite Hc, Hwall by lia.
  replace (c - c) with 0 by lra. rewrite Rmult_0_r.
  unfold Rdiv. rewrite Rmult_0_l, Rplus_0_r.
  apply list_insert_id. apply lookup_replicate_2. unfold NUM_STATIONS in *. lia.
Qed.

(** ** Edge cases of the solver *)

Lemma fold_left_Rmax_ge (l : list R) (m : R) : m <= fold_left Rmax l m.
Proof.
  revert m. induction l as [|y l IH]; intros m; cbn [fold_left]; [lra|].
  pose proof (IH (Rmax m y)). pose proof (Rmax_l m y). lra.
Qed.

Lemma np_max_abs_diff_nonneg (a b : list R) : 0 <= np_max (abs_diff a b).
Proof.
  unfold np_max, abs_diff. destruct a as [|x a], b as [|y b]; cbn [zip_with]; try lra.
  pose proof (fold_left_Rmax_ge (zip_with (fun x0 y0 : R => Rabs (x0 - y0)) a b)
                (Rabs (x - y))).
  pose proof (Rabs_pos (x - y)). lra.
Qed.

Lemma max_diff_at_nonneg (rf : R) (k : nat) : 0 <= max_diff_at rf k.
Proof. unfold max_diff_at. apply np_max_abs_diff_nonneg. Qed.

Lemma next_locals_iteration (hpd : list R) (it : Z) (s : locals) :
  iteration (next_locals hpd it s) = Some it.
Proof. unfold next_locals. cbn [iteration]. reflexivity. Qed.

(** When the loop is left normally, [iteration] holds what it held before
    the loop or a value of the range. *)
Lemma for_loop_iteration (cb : option callback) (max_iterations : Z)
    (tolerance : R) (hpd : list R) (range : list Z) (s s' : locals)
    (evs : list event) :
  for_loop cb max_iterations tolerance hpd range s = (inl s', evs) ->
  iteration s' = iteration s
  \/ exists it : Z, In it range /\ iteration s' = Some it.
Proof.
  revert s s' evs. induction range as [|it range IH]; intros s s' evs Hrun.
  - cbn [for_loop] in Hrun. left. congruence.
  - cbn [for_loop] in Hrun.
    destruct (loop_body cb max_iterations tolerance hpd it s)
      as [[s1|s1|e] evs1] eqn:Hbody.
    + pose proof (loop_body_state _ _ _ _ _ _ _ _ (or_introl Hbody)) as ->.
      destruct (for_loop cb max_iterations tolerance hpd range _)
        as [r evs2] eqn:Hrest.
      inversion Hrun; subst. right.
      destruct (IH _ _ _ Hrest) as [Heq|(it' & Hin & Heq)].
      * exists it. split; [now left|]. rewrite Heq. apply next_locals_iteration.
      * exists it'. split; [now right | exact Heq].
    + pose proof (loop_body_state _ _ _ _ _ _ _ _ (or_intror Hbody)) as ->.
      inversion Hrun; subst. right. exists it. split; [now left|].
      apply next_locals_iteration.
    + discriminate.
Qed.

Lemma py_range_bounds (n it : Z) : In it (py_range n) -> (0 <= it < n)%Z.
Proof.
  unfold py_range. intros Hin. apply in_map_iff in Hin as (j & <- & Hj).
  apply in_seq in Hj. lia.
Qed.

(** X7: whatever the callback does, a call that returns gives three
    arrays of [NUM_STATIONS] values and a number of iterations between 1
    and [max_iterations]. *)
Theorem returned_arrays_and_count
    (cb : option callback) (max_iterations : Z) (tolerance rf : R)
    (Tw Tc Tch : list R) (n : Z) (evs : list event) :
  steady_state_simulation cb max_iterations tolerance rf
  = (returns Tw Tc Tch n, evs) ->
  length Tw = NUM_STATIONS /\ length Tc = NUM_STATIONS /\ length Tch = NUM_STATIONS
  /\ (1 <= n <= max_iterations)%Z.
Proof.
  unfold steady_state_simulation.
  destruct (for_loop _ _ _ _ _ _) as [[s|e] evs1] eqn:Hloop; [|discriminate].
  pose proof (for_loop_from_initial _ _ _ _ _ _ _ Hloop) as [(HTc & HTch & HTw & _) _].
  pose proof (for_loop_iteration _ _ _ _ _ _ _ _ Hloop) as Hit.
  unfold after_loop.
  destruct (iteration s) as [it|] eqn:Hs; [|discriminate].
  destruct (max_diff s) as [d|]; [|discriminate].
  intros Heq. inversion Heq; subst.
  destruct Hit as [Hnone|(it' & Hin & Hsome)]; [discriminate|].
  injection Hsome as <-. apply py_range_bounds in Hin.
  repeat split; try assumption; lia.
Qed.

(** X8: with a relaxation factor of 0 the wall never moves, the metric of
    the first iteration is 0, and for any positive tolerance the solver
    reports convergence after one iteration with the wall (and the
    coolant) still at [INITIAL_TEMP]. *)
Theorem zero_relaxation_converges_at_once
    (cb : option callback) (max_iterations : Z) (tolerance : R) :
  callback_caught cb ->
  (1 <= max_iterations)%Z ->
  0 < tolerance ->
  exists (Tch : list R) (evs : list event),
    steady_state_simulation cb max_iterations tolerance 0
    = (returns (replicate NUM_STATIONS INITIAL_TEMP)
               (replicate NUM_STATIONS INITIAL_TEMP) Tch 1, evs)
    /\ In (ev_print_converged 1) evs.
Proof.
  intros Hcb Hmax Htol.
  rewrite (steady_state_simulation_eq cb max_iterations tolerance 0 Hcb). cbv zeta.
  destruct (Z.to_nat max_iterations) as [|n] eqn:Hn; [lia|].
  cbn [iterations_run run_events].
  rewrite max_diff_at_zero_relaxation.
  rewrite bool_decide_eq_true_2 by exact Htol.
  rewrite after_loop_bound. cbv zeta. cbn [fst snd].
  rewrite locals_after_S. unfold next_locals at 1 2. cbn [T_chamber_wall T_cooling_fluid].
  cbn [locals_after initial_locals relaxation_factor T_chamber_wall T_cooling_fluid].
  rewrite wall_pass_zero_relaxation. rewrite Rmult_1_l.
  assert (Hcool : coolant_pass (replicate NUM_STATIONS INITIAL_TEMP)
                               (replicate NUM_STATIONS INITIAL_TEMP)
                  = replicate NUM_STATIONS INITIAL_TEMP).
  { unfold coolant_pass. apply fold_left_fixed_on. intros i Hi.
    apply in_seq in Hi. unfold coolant_station.
    assert (Hc : replicate NUM_STATIONS INITIAL_TEMP !!! i = INITIAL_TEMP).
    { apply lookup_total_replicate_2. unfold NUM_STATIONS in *. lia. }
    rewrite Hc. replace (INITIAL_TEMP - INITIAL_TEMP) with 0 by lra.
    rewrite Rmult_0_r. unfold Rdiv. rewrite Rmult_0_l, Rplus_0_r.
    apply list_insert_id. apply lookup_replicate_2. unfold NUM_STATIONS in *. lia. }
  rewrite Hcool. do 2 eexists. split; [reflexivity|].
  apply in_or_app. left. apply in_or_app. right. now left.
Qed.

Lemma steady_state_simulation_runs_all
    (cb : option callback) (max_iterations : Z) (tolerance rf : R) :
  callback_caught cb ->
  (1 <= max_iterations)%Z ->
  (forall j : nat, ~ max_diff_at rf j < tolerance) ->
  exists (Tw Tc Tch : list R) (evs : list event),
    steady_state_simulation cb max_iterations tolerance rf
    = (returns Tw Tc Tch max_iterations, evs).
Proof.
  intros Hcb Hmax Hnever.
  rewrite (steady_state_simulation_eq cb max_iterations tolerance rf Hcb). cbv zeta.
  set (n := Z.to_nat max_iterations).
  pose proof (iterations_run_first tolerance rf 0 n) as (_ & _ & Hnone).
  cbv zeta in Hnone. rewrite Hnone by (intros j _; apply Hnever).
  destruct n as [|n'] eqn:Hn; [lia|].
  rewrite after_loop_bound. cbv zeta. cbn [fst snd].
  replace (Z.of_nat n' + 1)%Z with max_iterations by lia.
  do 4 eexists. reflexivity.
Qed.

(** X9: a tolerance that is not positive is never met, the metric being a
    maximum of absolute values: the solver runs all [max_iterations]
    iterations, ends with the warning and prints no convergence message,
    whatever the number in it. *)
Theorem nonpositive_tolerance_never_converges
    (cb : option callback) (max_iterations : Z) (tolerance rf : R) :
  callback_caught cb ->
  (1 <= max_iterations)%Z ->
  tolerance <= 0 ->
  exists (Tw Tc Tch : list R) (evs0 : list event),
    steady_state_simulation cb max_iterations tolerance rf
    = (returns Tw Tc Tch max_iterations,
       evs0 ++ [ev_print_warning_max_iterations;
                ev_print_current_max_diff
                  (max_diff_at rf (Z.to_nat max_iterations - 1))])
    /\ forall z : Z, ~ In (ev_print_converged z) evs0.
Proof.
  intros Hcb Hmax Htol.
  rewrite (steady_state_simulation_eq cb max_iterations tolerance rf Hcb). cbv zeta.
  set (n := Z.to_nat max_iterations).
  assert (Hnever : forall j : nat, ~ max_diff_at rf j < tolerance).
  { intros j. pose proof (max_diff_at_nonneg rf j). lra. }
  pose proof (iterations_run_first tolerance rf 0 n) as (_ & _ & Hnone).
  cbv zeta in Hnone. rewrite Hnone by (intros j _; apply Hnever).
  destruct n as [|n'] eqn:Hn; [lia|].
  rewrite after_loop_bound. cbv zeta. cbn [fst snd].
  rewrite bool_decide_eq_true_2 by lia.
  replace (S n' - 1)%nat with n' by lia.
  replace (Z.of_nat n' + 1)%Z with max_iterations by lia.
  do 4 eexists. split; [reflexivity|].
  assert (Hev : forall (m a : nat) (z : Z),
             ~ In (ev_print_converged z)
                  (run_events cb max_iterations tolerance rf a m)).
  { induction m as [|m IH]; intros a z; cbn [run_events]; [now intros []|].
    rewrite bool_decide_eq_false_2 by apply Hnever.
    intros Hin. apply in_app_or in Hin as [Hin|Hin]; [|now apply (IH (S a) z)].
    unfold call_progress_callback in Hin.
    destruct cb as [f|]; [|now destruct Hin].
    destruct (f (Z.of_nat a) max_iterations (max_diff_at rf a)) as [|e];
      [|destruct (isinstance_Exception e)]; cbn [snd In] in Hin;
      intuition discriminate. }
  intros z. apply Hev.
Qed.

(** ** More on the flow and heat-transfer models *)

Lemma reynolds_without_density (T area mass_flow pressure : R) :
  let props := hydrogen_properties T in
  let fp := calculate_flow_parameters T area mass_flow pressure in
  Gas.density props <> 0 -> area <> 0 -> Gas.viscosity props <> 0 ->
  Flow.reynolds fp
  = mass_flow * (duct_constants area).1 / (area * Gas.viscosity props).
Proof.
  intros props fp Hrho Harea Hmu. subst fp. unfold calculate_flow_parameters.
  fold props. destruct (duct_constants area) as [D rough].
  cbn [Flow.reynolds fst]. field. repeat split; assumption.
Qed.

(** X10: for a density, an area and a viscosity that are not zero, the
    velocity that [calculate_flow_parameters] returns carries the given
    mass flow through the area, and the Reynolds number is
    [mass_flow * D / (area * viscosity)], [D] the hydraulic diameter chosen
    for the area: it depends on the temperature through the viscosity
    alone. *)
Theorem flow_parameters_conserve_mass (T area mass_flow pressure : R) :
  let props := hydrogen_properties T in
  let fp := calculate_flow_parameters T area mass_flow pressure in
  Gas.density props <> 0 -> area <> 0 -> Gas.viscosity props <> 0 ->
  Gas.density props * Flow.velocity fp * area = mass_flow
  /\ Flow.reynolds fp
     = mass_flow * (duct_constants area).1 / (area * Gas.viscosity props).
Proof.
  intros props fp Hrho Harea Hmu. split.
  - subst fp. unfold calculate_flow_parameters. fold props.
    destruct (duct_constants area) as [D rough]. cbn [Flow.velocity].
    field. split; assumption.
  - now apply reynolds_without_density.
Qed.

Lemma cooling_area_value : cooling_area = PI * 0.000023.
Proof.
  unfold cooling_area, cooling_outer_radius, cooling_inner_radius, COOLING_GAP.
  rewrite chamber_outer_radius_value. lra.
Qed.

Lemma chamber_inner_area_value : chamber_inner_area = PI * 0.0001.
Proof. unfold chamber_inner_area. rewrite chamber_inner_radius_value. lra. Qed.

Lemma duct_constants_cooling :
  duct_constants cooling_area = (2 * COOLING_GAP, COOLING_ROUGHNESS).
Proof.
  apply duct_constants_other.
  rewrite cooling_area_value, chamber_inner_area_value.
  pose proof PI_RGT_0. lra.
Qed.

Lemma PI_gt_3 : 3 < PI.
Proof. pose proof PI2_3_2. lra. Qed.

(** The Reynolds number that [calculate_heat_transfer] works with, for
    either duct, at a viscosity of at least the smallest tabulated one. *)
Lemma module_reynolds_bounds (T_fluid : R) (area_type : string) :
  let props := hydrogen_properties T_fluid in
  let area :=
    if String.eqb area_type "chamber" then chamber_inner_area else cooling_area in
  let fp := calculate_flow_parameters T_fluid area MASS_FLOW_RATE PRESSURE in
  Gas.density props <> 0 -> 8.9e-6 <= Gas.viscosity props ->
  0 < Flow.reynolds fp < 38.
Proof.
  intros props area fp Hrho Hmu. pose proof PI_gt_3 as Hpi.
  assert (Hpm : 3 * 8.9e-6 <= PI * Gas.viscosity props) by nra.
  subst fp. rewrite reynolds_without_density; fold props.
  2: assumption.
  3: lra.
  - subst area. destruct (String.eqb area_type "chamber").
    + rewrite duct_constants_chamber, chamber_inner_area_value. cbn [fst].
      unfold MASS_FLOW_RATE, CHAMBER_INNER_DIAMETER. split.
      * apply Rdiv_lt_0_compat; nra.
      * apply div_lt_upper; nra.
    + rewrite duct_constants_cooling, cooling_area_value. cbn [fst].
      unfold MASS_FLOW_RATE, COOLING_GAP. split.
      * apply Rdiv_lt_0_compat; nra.
      * apply div_lt_upper; nra.
  - subst area. destruct (String.eqb area_type "chamber").
    + rewrite chamber_inner_area_value. lra.
    + rewrite cooling_area_value. lra.
Qed.

(** X11: at the mass flow of the module both ducts are laminar whenever
    the viscosity of the gas is at least the smallest tabulated one
    (8.9e-6) and its density is not zero: the Reynolds number is below 38,
    so the friction factor is [64 / Re] with no Colebrook-White round and
    [calculate_heat_transfer] is the laminar formula, whatever hydraulic
    diameter and wall temperature it is given. *)
Theorem module_mass_flow_is_laminar
    (T_fluid T_wall : R) (area_type : string) (hydraulic_diameter : R) :
  let props := hydrogen_properties T_fluid in
  let area :=
    if String.eqb area_type "chamber" then chamber_inner_area else cooling_area in
  let fp := calculate_flow_parameters T_fluid area MASS_FLOW_RATE PRESSURE in
  let prandtl :=
    Gas.specific_heat props * Gas.viscosity props / Gas.thermal_conductivity props in
  Gas.density props <> 0 -> 8.9e-6 <= Gas.viscosity props ->
  0 < Flow.reynolds fp < 38
  /\ Flow.friction_factor fp = 64 / Flow.reynolds fp
  /\ calculate_heat_transfer T_fluid T_wall area_type hydraulic_diameter
     = (3.66 + (0.0668 * (hydraulic_diameter / CHAMBER_HEIGHT)
                * Flow.reynolds fp * prandtl)
               / (1 + 0.04 * Rpower ((hydraulic_diameter / CHAMBER_HEIGHT)
                                     * Flow.reynolds fp * prandtl) (2 / 3)))
       * Gas.thermal_conductivity props / hydraulic_diameter.
Proof.
  intros props area fp prandtl Hrho Hmu.
  pose proof (module_reynolds_bounds T_fluid area_type Hrho Hmu) as Hre.
  cbv zeta in Hre. fold props in Hre. fold area in Hre. fold fp in Hre.
  split; [exact Hre|]. split.
  - subst fp. rewrite friction_factor_unrefined by (cbv zeta; lra).
    apply smooth_friction_factor_laminar. lra.
  - unfold calculate_heat_transfer. fold props.
    assert (Harea : (if String.eqb area_type "chamber"
                     then (chamber_inner_area, CHAMBER_ROUGHNESS)
                     else (cooling_area, COOLING_ROUGHNESS)).1 = area).
    { subst area. now destruct (String.eqb area_type "chamber"). }
    destruct (if String.eqb area_type "chamber"
              then (chamber_inner_area, CHAMBER_ROUGHNESS)
              else (cooling_area, COOLING_ROUGHNESS)) as [a rough].
    cbn [fst] in Harea. subst a. fold fp. fold prandtl.
    rewrite nusselt_laminar by lra. reflexivity.
Qed.

(** X12: in the laminar branch, for a product [D/L * Re * Pr] that is not
    negative, the Nusselt number is at least the fully developed value 3.66
    and at most 3.66 plus 0.0668 times that product. *)
Theorem laminar_nusselt_bounds (hydraulic_diameter reynolds prandtl : R) :
  reynolds < 2300 ->
  0 <= hydraulic_diameter / CHAMBER_HEIGHT * reynolds * prandtl ->
  3.66 <= nusselt_number hydraulic_diameter reynolds prandtl
       <= 3.66 + 0.0668 * (hydraulic_diameter / CHAMBER_HEIGHT * reynolds * prandtl).
Proof.
  intros Hre Hx. rewrite nusselt_laminar by assumption.
  set (x := hydraulic_diameter / CHAMBER_HEIGHT * reynolds * prandtl) in *.
  replace (0.0668 * (hydraulic_diameter / CHAMBER_HEIGHT) * reynolds * prandtl)
    with (0.0668 * x) by (unfold x; ring).
  assert (Hp : 0 < Rpower x (2 / 3)) by apply exp_pos.
  set (d := 1 + 0.04 * Rpower x (2 / 3)).
  assert (Hd : 1 <= d) by (unfold d; lra).
  assert (Hlo : 0 <= 0.0668 * x / d).
  { apply Rmult_le_pos; [lra|]. apply Rlt_le, Rinv_0_lt_compat. lra. }
  assert (Hhi : 0.0668 * x / d <= 0.0668 * x).
  { apply Rmult_le_reg_r with d; [lra|].
    unfold Rdiv. rewrite Rmult_assoc, Rinv_l by lra. nra. }
  lra.
Qed.

(** X13: a positive root of the Colebrook-White equation, as the nested
    function of line 164 states it, is returned unchanged by the loop of
    lines 167-174, whatever the number of rounds. *)
Theorem colebrook_root_is_returned
    (n : nat) (roughness hydraulic_diameter reynolds f : R) :
  0 < f ->
  colebrook_white roughness hydraulic_diameter reynolds f = 0 ->
  colebrook_loop n roughness hydraulic_diameter reynolds f = f.
Proof.
  intros Hf Hroot. destruct n as [|n]; cbn [colebrook_loop]; [reflexivity|].
  cbv zeta. rewrite (colebrook_white_root_is_fixed_point _ _ _ _ Hf Hroot).
  replace (f - f) with 0 by lra. rewrite Rabs_R0.
  rewrite bool_decide_eq_true_2 by lra. reflexivity.
Qed.

(** ** More on the equilibrium times *)

Lemma ln_10_gt_1 : 1 < ln 10.
Proof.
  rewrite <- (ln_exp 1). apply ln_increasing; [apply exp_pos|].
  pose proof exp_le_3. lra.
Qed.

Lemma ln_tenth : ln 0.1 = - ln 10.
Proof. replace 0.1 with (/ 10) by lra. apply ln_Rinv. lra. Qed.

(** X14: for a positive heater power and a positive specific heat of the
    wall at its mean temperature, the three times are positive and in
    order: the time constant, then the time to 90 percent, then the time to
    99 percent. *)
Theorem equilibrium_times_are_ordered (T_chamber_wall : list R) (heater_power : R) :
  let r := calculate_equilibrium_time T_chamber_wall heater_power in
  heater_power > 0 ->
  Solid.specific_heat (inconel_properties (np_mean T_chamber_wall)) > 0 ->
  0 < Equilibrium.time_constant r
  /\ Equilibrium.time_constant r < Equilibrium.time_to_90_percent r
  /\ Equilibrium.time_to_90_percent r < Equilibrium.time_to_99_percent r.
Proof.
  intros r Hp Hcp. subst r. unfold calculate_equilibrium_time.
  cbn [Equilibrium.time_constant Equilibrium.time_to_90_percent
       Equilibrium.time_to_99_percent].
  set (cp := Solid.specific_heat (inconel_properties (np_mean T_chamber_wall))) in *.
  cbn [Solid.density inconel_properties].
  rewrite ln_hundredth, ln_tenth.
  rewrite chamber_outer_radius_value, chamber_inner_radius_value.
  unfold CHAMBER_HEIGHT. pose proof PI_RGT_0 as Hpi. pose proof ln_10_gt_1 as Hln.
  assert (Htau : 0 < 8190 * (PI * (0.011 ^ 2 - 0.01 ^ 2) * 0.04) * cp
                     / (heater_power * 0.8)).
  { apply Rdiv_lt_0_compat; [|lra]. apply Rmult_lt_0_compat; [|lra]. nra. }
  set (tau := 8190 * (PI * (0.011 ^ 2 - 0.01 ^ 2) * 0.04) * cp / (heater_power * 0.8)) in *.
  repeat split; nra.
Qed.

(** X15: the three times are inversely proportional to the heater power:
    a power [c] times larger divides each of them by [c]. *)
Theorem equilibrium_times_scale_with_power
    (T_chamber_wall : list R) (heater_power c : R) :
  let r := calculate_equilibrium_time T_chamber_wall heater_power in
  let r' := calculate_equilibrium_time T_chamber_wall (c * heater_power) in
  heater_power <> 0 -> c <> 0 ->
  Equilibrium.time_constant r' = Equilibrium.time_constant r / c
  /\ Equilibrium.time_to_90_percent r' = Equilibrium.time_to_90_percent r / c
  /\ Equilibrium.time_to_99_percent r' = Equilibrium.time_to_99_percent r / c.
Proof.
  intros r r' Hp Hc. subst r r'. unfold calculate_equilibrium_time.
  cbn [Equilibrium.time_constant Equilibrium.time_to_90_percent
       Equilibrium.time_to_99_percent].
  repeat split; field; repeat split; try assumption; lra.
Qed.

(** ** The caller: progress bar, velocity profiles, areas, nozzle *)

Lemma py_int_percent (x : R) : 30 <= x < 100 -> (30 <= py_int x <= 99)%Z.
Proof.
  intros [Hlo Hhi]. unfold py_int. rewrite bool_decide_eq_true_2 by lra.
  destruct (base_Int_part x) as [Hle Hgt].
  split.
  - assert (H : (29 < Int_part x)%Z) by (apply lt_IZR; lra). lia.
  - assert (H : (Int_part x < 100)%Z) by (apply lt_IZR; lra). lia.
Qed.

Lemma progress_percent_in_range (i n : Z) :
  (0 <= i < n)%Z ->
  exists p : Z, progress_percent i n = Some p /\ (30 <= p <= 99)%Z.
Proof.
  intros [Hi Hn]. unfold progress_percent.
  rewrite bool_decide_eq_false_2 by lia. eexists. split; [reflexivity|].
  apply py_int_percent.
  assert (H0 : 0 <= IZR i) by now apply IZR_le.
  assert (H1 : IZR i < IZR n) by now apply IZR_lt.
  rewrite mult_IZR.
  assert (Hq : 0 <= 70 * IZR i / IZR n < 70).
  { split.
    - apply Rmult_le_pos; [lra|]. apply Rlt_le, Rinv_0_lt_compat. lra.
    - apply div_lt_upper; lra. }
  lra.
Qed.

Lemma call_progress_callback_calls (cb : option callback) (it max_iterations : Z)
    (d : R) (c : Z * Z * R) :
  In c (callback_calls (call_progress_callback cb it max_iterations d).2) ->
  c = (it, max_iterations, d).
Proof.
  unfold call_progress_callback.
  destruct cb as [f|]; [|intros []].
  destruct (f it max_iterations d) as [|e]; [|destruct (isinstance_Exception e)];
    cbn; intuition.
Qed.

Lemma loop_body_calls (cb : option callback) (max_iterations : Z) (tolerance : R)
    (hpd : list R) (it : Z) (s : locals) (c : Z * Z * R) :
  In c (callback_calls (loop_body cb max_iterations tolerance hpd it s).2) ->
  c.1.1 = it /\ c.1.2 = max_iterations.
Proof.
  rewrite loop_body_eq. cbv zeta.
  pose proof (call_progress_callback_calls cb it max_iterations
                (np_max (abs_diff (T_chamber_wall (next_locals hpd it s))
                                  (T_chamber_wall s))) c) as Hc.
  destruct (call_progress_callback cb it max_iterations _) as [[e|] evs];
    cbn [snd] in *.
  - intros Hin. rewrite (Hc Hin). now split.
  - case_bool_decide; cbn [snd]; intros Hin.
    + rewrite callback_calls_app in Hin. apply in_app_or in Hin as [Hin|[]].
      rewrite (Hc Hin). now split.
    + rewrite (Hc Hin). now split.
Qed.

Lemma for_loop_calls (cb : option callback) (max_iterations : Z) (tolerance : R)
    (hpd : list R) (range : list Z) (s : locals) (c : Z * Z * R) :
  In c (callback_calls (for_loop cb max_iterations tolerance hpd range s).2) ->
  In c.1.1 range /\ c.1.2 = max_iterations.
Proof.
  revert s. induction range as [|it range IH]; intros s; cbn [for_loop].
  - intros [].
  - pose proof (loop_body_calls cb max_iterations tolerance hpd it s c) as Hb.
    destruct (loop_body cb max_iterations tolerance hpd it s) as [[s1|s1|e] evs1];
      cbn [snd] in *.
    + specialize (IH s1).
      destruct (for_loop cb max_iterations tolerance hpd range s1) as [r evs2].
      cbn [snd] in *. rewrite callback_calls_app. intros Hin.
      apply in_app_or in Hin as [Hin|Hin].
      * destruct (Hb Hin) as [<- ->]. split; [now left | reflexivity].
      * destruct (IH Hin) as [Hr ->]. split; [now right | reflexivity].
    + intros Hin. destruct (Hb Hin) as [<- ->]. split; [now left | reflexivity].
    + intros Hin. destruct (Hb Hin) as [<- ->]. split; [now left | reflexivity].
Qed.

(** X16: every call that the solver makes of its callback, whatever the
    callback does, has an iteration index from 0 to [max_iterations - 1]
    and [max_iterations] itself as second argument; so the value that the
    caller's callback computes for its progress bar,
    [int(30 + 70 * iteration / max_iterations)], is defined and lies
    between 30 and 99. *)
Theorem progress_bar_value_in_range
    (cb : option callback) (max_iterations : Z) (tolerance rf : R)
    (i n : Z) (d : R) :
  In (i, n, d)
     (callback_calls (steady_state_simulation cb max_iterations tolerance rf).2) ->
  n = max_iterations
  /\ (0 <= i < max_iterations)%Z
  /\ exists p : Z, progress_percent i n = Some p /\ (30 <= p <= 99)%Z.
Proof.
  intros Hin.
  assert (Hloop : In (i, n, d)
            (callback_calls
               (for_loop cb max_iterations tolerance heater_power_distribution
                  (py_range max_iterations) (initial_locals rf)).2)).
  { unfold steady_state_simulation in Hin.
    destruct (for_loop cb max_iterations tolerance heater_power_distribution
                (py_range max_iterations) (initial_locals rf)) as [[s|e] evs1];
      cbn [snd] in *; [|exact Hin].
    pose proof (after_loop_no_callback max_iterations s) as [Hnone _].
    destruct (after_loop max_iterations s) as [r evs2]. cbn [snd] in *.
    rewrite callback_calls_app, Hnone, app_nil_r in Hin. exact Hin. }
  apply for_loop_calls in Hloop as [Hrange Hn]. cbn [fst snd] in Hrange, Hn.
  apply py_range_bounds in Hrange. subst n.
  split; [reflexivity|]. split; [exact Hrange|].
  now apply progress_percent_in_range.
Qed.

Lemma velocity_loop_run
    (Tc Tf : list R) (a1 a2 : R) (m a : nat) (vc vh : list R) :
  (a + m <= length Tc)%nat -> (a + m <= length Tf)%nat ->
  length vc = length vh ->
  (a + m <= length vc)%nat ->
  exists vc' vh' : list R,
    velocity_loop Tc Tf a1 a2 (seq a m) vc vh = Some (vc', vh')
    /\ length vc' = length vc /\ length vh' = length vh
    /\ forall j : nat, (j < length vc)%nat ->
         vc' !!! j
         = (if decide (a <= j < a + m)%nat
            then Flow.velocity (calculate_flow_parameters
                                  (Tc !!! j) a1 MASS_FLOW_RATE PRESSURE)
            else vc !!! j)
         /\ vh' !!! j
            = (if decide (a <= j < a + m)%nat
               then Flow.velocity (calculate_flow_parameters
                                     (Tf !!! j) a2 MASS_FLOW_RATE PRESSURE)
               else vh !!! j).
Proof.
  revert a vc vh. induction m as [|m IH]; intros a vc vh HTc HTf Hlen Hv;
    cbn [seq velocity_loop].
  - exists vc, vh. repeat split; intros; rewrite decide_False by lia; reflexivity.
  - rewrite (list_lookup_lookup_total_lt Tc a), (list_lookup_lookup_total_lt Tf a)
      by lia.
    cbv zeta.
    destruct (IH (S a)
                (<[a := Flow.velocity (calculate_flow_parameters
                                          (Tc !!! a) a1 MASS_FLOW_RATE PRESSURE)]> vc)
                (<[a := Flow.velocity (calculate_flow_parameters
                                          (Tf !!! a) a2 MASS_FLOW_RATE PRESSURE)]> vh))
      as (vc' & vh' & Hrun & Hlc & Hlh & Hval);
      try (rewrite ?length_insert; lia).
    exists vc', vh'. rewrite Hrun. rewrite length_insert in Hlc, Hlh.
    repeat split; try assumption.
    all: intros; destruct (Hval j) as [Hc Hh]; [rewrite length_insert; lia|].
    + rewrite Hc. destruct (decide (j = a)) as [->|Hne].
      * rewrite decide_False by lia. rewrite decide_True by lia.
        apply list_lookup_total_insert_eq. lia.
      * rewrite list_lookup_total_insert_ne by lia.
        destruct (decide (S a <= j < S a + m)%nat);
          [rewrite decide_True by lia | rewrite decide_False by lia]; reflexivity.
    + rewrite Hh. destruct (decide (j = a)) as [->|Hne].
      * rewrite decide_False by lia. rewrite decide_True by lia.
        apply list_lookup_total_insert_eq. lia.
      * rewrite list_lookup_total_insert_ne by lia.
        destruct (decide (S a <= j < S a + m)%nat);
          [rewrite decide_True by lia | rewrite decide_False by lia]; reflexivity.
Qed.

Lemma velocity_loop_index_error
    (Tc Tf : list R) (a1 a2 : R) (range : list nat) (vc vh : list R) (i : nat) :
  In i range -> (length Tc <= i)%nat ->
  velocity_loop Tc Tf a1 a2 range vc vh = None.
Proof.
  intros Hin Hi. revert vc vh. induction range as [|j range IH]; intros vc vh;
    [destruct Hin|].
  cbn [velocity_loop]. destruct (Tc !! j) as [tc|] eqn:Hc; [|reflexivity].
  destruct (Tf !! j) as [tf|]; [|reflexivity]. cbv zeta.
  destruct Hin as [->|Hin]; [|now apply IH].
  apply lookup_lt_Some in Hc. lia.
Qed.

(** X17: the caller fills its velocity arrays over [range(num_stations)],
    [num_stations] being a slider of its own, from the arrays that the
    solver returned, which have [NUM_STATIONS] values: for
    [num_stations > NUM_STATIONS] the loop raises [IndexError]; otherwise
    it gives two arrays of [num_stations] velocities, station by station
    the velocity of [calculate_flow_parameters] at the returned
    temperature and the caller's area. *)
Theorem velocity_profiles_of_returned_arrays
    (cb : option callback) (max_iterations : Z) (tolerance rf : R)
    (Tw Tc Tch : list R) (k : Z) (evs : list event)
    (num_stations : nat) (a1 a2 : R) :
  steady_state_simulation cb max_iterations tolerance rf
  = (returns Tw Tc Tch k, evs) ->
  ((NUM_STATIONS < num_stations)%nat ->
   velocity_profiles num_stations Tc Tch a1 a2 = None)
  /\ ((num_stations <= NUM_STATIONS)%nat ->
      exists v_cooling v_chamber : list R,
        velocity_profiles num_stations Tc Tch a1 a2 = Some (v_cooling, v_chamber)
        /\ length v_cooling = num_stations /\ length v_chamber = num_stations
        /\ forall i : nat, (i < num_stations)%nat ->
             v_cooling !!! i
             = Flow.velocity (calculate_flow_parameters
                                (Tc !!! i) a1 MASS_FLOW_RATE PRESSURE)
             /\ v_chamber !!! i
                = Flow.velocity (calculate_flow_parameters
                                   (Tch !!! i) a2 MASS_FLOW_RATE PRESSURE)).
Proof.
  intros Hrun.
  apply steady_state_simulation_returns in Hrun
    as (s & (HTc & HTch & _) & _ & _ & -> & -> & _).
  split.
  - intros Hn. unfold velocity_profiles.
    apply (velocity_loop_index_error _ _ _ _ _ _ _ NUM_STATIONS).
    + apply in_seq. lia.
    + lia.
  - intros Hn. unfold velocity_profiles.
    destruct (velocity_loop_run (T_cooling_fluid s) (T_chamber_fluid s) a1 a2
                num_stations 0 (replicate num_stations 0) (replicate num_stations 0))
      as (vc & vh & Hloop & Hlc & Hlh & Hval);
      rewrite ?length_replicate; try lia.
    rewrite length_replicate in Hlc, Hlh.
    exists vc, vh. repeat split; try assumption.
    all: intros; destruct (Hval i) as [Hc Hh]; [rewrite length_replicate; lia|].
    + rewrite Hc. now rewrite decide_True by lia.
    + rewrite Hh. now rewrite decide_True by lia.
Qed.

(** X18: the caller computes the chamber area from its diameter slider and
    gives it to [calculate_flow_parameters]; for every positive diameter
    other than [CHAMBER_INNER_DIAMETER] that area differs from
    [chamber_inner_area], so the Reynolds number it plots for the chamber is
    computed with the hydraulic diameter [2 * COOLING_GAP] of the cooling
    duct; only the default diameter gets the chamber's. *)
Theorem changed_diameter_gets_cooling_duct (T chamber_inner_diameter : R) :
  let props := hydrogen_properties T in
  let fp :=
    calculate_flow_parameters T (chamber_inner_area_local chamber_inner_diameter)
                              MASS_FLOW_RATE PRESSURE in
  chamber_inner_diameter > 0 ->
  chamber_inner_diameter <> CHAMBER_INNER_DIAMETER ->
  Flow.reynolds fp
  = Gas.density props * Flow.velocity fp * (2 * COOLING_GAP) / Gas.viscosity props
  /\ duct_constants (chamber_inner_area_local CHAMBER_INNER_DIAMETER)
     = (CHAMBER_INNER_DIAMETER, CHAMBER_ROUGHNESS).
Proof.
  intros props fp Hpos Hne. split.
  - assert (Harea : chamber_inner_area_local chamber_inner_diameter
                    <> chamber_inner_area).
    { unfold chamber_inner_area_local. cbv zeta.
      rewrite chamber_inner_area_value.
      unfold CHAMBER_INNER_DIAMETER in Hne. pose proof PI_RGT_0 as Hpi.
      intros Heq.
      assert (Hsq : (chamber_inner_diameter / 2) ^ 2 = 0.0001)
        by (apply (Rmult_eq_reg_l PI); lra).
      apply Hne. nra. }
    subst fp props. unfold calculate_flow_parameters.
    rewrite (duct_constants_other _ Harea). reflexivity.
  - replace (chamber_inner_area_local CHAMBER_INNER_DIAMETER)
      with chamber_inner_area by reflexivity.
    apply duct_constants_chamber.
Qed.

(** X19: on [0 <= z <= chamber_height] the nozzle profile of the caller
    stays between 0.7 and 1.5 times the chamber radius, starts at the
    chamber radius, has its throat of 0.7 radius at [0.4 * chamber_height]
    and ends at 1.5 radius; its two branches meet at the throat, where it is
    continuous: it differs from the throat radius by at most
    [4/3 * radius * |z - 0.4 * chamber_height| / chamber_height]. *)
Theorem nozzle_radius_bounds (chamber_inner_radius chamber_height z : R) :
  0 < chamber_height ->
  0 <= chamber_inner_radius ->
  0 <= z <= chamber_height ->
  0.7 * chamber_inner_radius
    <= nozzle_radius chamber_inner_radius chamber_height z
    <= 1.5 * chamber_inner_radius
  /\ Rabs (nozzle_radius chamber_inner_radius chamber_height z
           - 0.7 * chamber_inner_radius) * chamber_height
     <= 4 / 3 * chamber_inner_radius * Rabs (z - chamber_height * 0.4)
  /\ nozzle_radius chamber_inner_radius chamber_height 0 = chamber_inner_radius
  /\ nozzle_radius chamber_inner_radius chamber_height (chamber_height * 0.4)
     = 0.7 * chamber_inner_radius
  /\ nozzle_radius chamber_inner_radius chamber_height chamber_height
     = 1.5 * chamber_inner_radius.
Proof.
  intros HH Hr [Hz0 Hz1].
  revert HH Hr Hz0 Hz1. generalize chamber_inner_radius as r, chamber_height as H.
  intros r H HH Hr Hz0 Hz1.
  assert (Hleft : forall x : R, x < H * 0.4 ->
             nozzle_radius r H x = r * (1 - 0.3 * (x / (H * 0.4)))).
  { intros x Hx. unfold nozzle_radius. now rewrite bool_decide_eq_true_2. }
  assert (Hright : forall x : R, H * 0.4 <= x ->
             nozzle_radius r H x
             = r * 0.7 + r * 0.8 * ((x - H * 0.4) / (H * 0.6))).
  { intros x Hx. unfold nozzle_radius.
    rewrite bool_decide_eq_false_2; [reflexivity | lra]. }
  assert (Hgen : 0.7 * r <= nozzle_radius r H z <= 1.5 * r
                 /\ Rabs (nozzle_radius r H z - 0.7 * r) * H
                    <= 4 / 3 * r * Rabs (z - H * 0.4)).
  { destruct (Rlt_dec z (H * 0.4)) as [Hlt|Hge].
    - rewrite Hleft by assumption.
      set (t := z / (H * 0.4)).
      assert (Ht : z = t * (H * 0.4)) by (unfold t; field; lra).
      assert (Ht0 : 0 <= t).
      { unfold t. apply Rmult_le_pos; [lra|]. apply Rlt_le, Rinv_0_lt_compat. lra. }
      assert (Ht1 : t < 1) by (unfold t; apply div_lt_upper; lra).
      split; [nra|].
      rewrite Rabs_right by nra. rewrite Rabs_left by lra. rewrite Ht. nra.
    - rewrite Hright by lra.
      set (t := (z - H * 0.4) / (H * 0.6)).
      assert (Ht : z - H * 0.4 = t * (H * 0.6)) by (unfold t; field; lra).
      assert (Ht0 : 0 <= t).
      { unfold t. apply Rmult_le_pos; [lra|]. apply Rlt_le, Rinv_0_lt_compat. lra. }
      assert (Ht1 : t <= 1).
      { apply Rmult_le_reg_r with (H * 0.6); [lra|]. rewrite <- Ht. lra. }
      split; [nra|].
      rewrite Rabs_right by nra. rewrite Rabs_right by lra. rewrite Ht. nra. }
  destruct Hgen as [Hb Hl]. split; [exact Hb|]. split; [exact Hl|].
  split; [|split].
  - rewrite Hleft by lra. unfold Rdiv. rewrite Rmult_0_l. lra.
  - rewrite Hright by lra. replace (H * 0.4 - H * 0.4) with 0 by lra.
    unfold Rdiv. rewrite Rmult_0_l. lra.
  - rewrite Hright by lra.
    assert (Hone : (H - H * 0.4) / (H * 0.6) = 1).
    { apply Rmult_eq_reg_r with (H * 0.6); [|lra].
      unfold Rdiv. rewrite Rmult_assoc, Rinv_l by lra. lra. }
    rewrite Hone. lra.
Qed.

Lemma adapt_relaxation_floor (it : Z) (d : R) (prev : ext_real) (rf : R) :
  0 <= rf -> rf * 0.95 <= adapt_relaxation it d prev rf.
Proof.
  intros Hrf. unfold adapt_relaxation.
  destruct (bool_decide (it > 0)%Z && gt_ext d prev); lra.
Qed.

(** X20: the code sets no floor under the adaptive relaxation factor, but
    it cuts it at most once per iteration and never in the first one: a
    positive factor [rf0] is still at least [rf0 * 0.95 ^ (k - 1)] after
    [k] iterations, so it stays positive. *)
Theorem relaxation_factor_geometric_floor (rf0 : R) (k : nat) :
  0 < rf0 ->
  0 < rf0 * 0.95 ^ (k - 1) <= relaxation_factor (locals_after rf0 k).
Proof.
  intros Hrf.
  assert (Hpow : forall n : nat, 0 < 0.95 ^ n) by (intros n; apply pow_lt; lra).
  split; [apply Rmult_lt_0_compat; [exact Hrf | apply Hpow]|].
  induction k as [|k IH].
  - cbn [Nat.sub pow locals_after]. unfold initial_locals.
    cbn [relaxation_factor]. lra.
  - rewrite locals_after_relaxation. destruct k as [|j].
    + cbn [Nat.sub pow].
      destruct (adapt_relaxation_cases 0 (max_diff_at rf0 0)
                  (prev_max_diff (locals_after rf0 0))
                  (relaxation_factor (locals_after rf0 0))) as (_ & Hsame & _).
      change (Z.of_nat 0) with 0%Z.
      rewrite Hsame by (intros [Hgt _]; lia).
      cbn [locals_after]. unfold initial_locals. cbn [relaxation_factor]. lra.
    + replace (S (S j) - 1)%nat with (S j) by lia.
      replace (S j - 1)%nat with j in IH by lia.
      cbn [pow]. pose proof (Hpow j) as Hj.
      assert (Hpos : 0 <= relaxation_factor (locals_after rf0 (S j))) by nra.
      pose proof (adapt_relaxation_floor (Z.of_nat (S j)) (max_diff_at rf0 (S j))
                    (prev_max_diff (locals_after rf0 (S j)))
                    (relaxation_factor (locals_after rf0 (S j))) Hpos) as Hfl.
      nra.
Qed.

Lemma equilibrium_time_constant_pos (T_chamber_wall : list R) (heater_power : R) :
  heater_power > 0 ->
  Solid.specific_heat (inconel_properties (np_mean T_chamber_wall)) > 0 ->
  0 < Equilibrium.time_constant
        (calculate_equilibrium_time T_chamber_wall heater_power).
Proof.
  intros Hp Hcp. unfold calculate_equilibrium_time.
  cbn [Equilibrium.time_constant].
  set (cp := Solid.specific_heat (inconel_properties (np_mean T_chamber_wall))) in *.
  cbn [Solid.density inconel_properties].
  rewrite chamber_outer_radius_value, chamber_inner_radius_value.
  unfold CHAMBER_HEIGHT. pose proof PI_RGT_0 as Hpi.
  apply Rdiv_lt_0_compat; [|lra]. apply Rmult_lt_0_compat; [|lra]. nra.
Qed.

(** X21: the caller draws the first-order curve
    [T_initial + (T_final - T_initial) * (1 - exp(-t / time_constant))],
    horizontal markers at 90 and 99 percent of the rise and vertical markers
    at the two times of [calculate_equilibrium_time]: for a time constant
    that is not zero the curve starts at [T_initial] and passes through
    the crossing of each pair of markers. *)
Theorem equilibrium_curve_meets_markers
    (T_chamber_wall : list R) (heater_power : R) :
  let r := calculate_equilibrium_time T_chamber_wall heater_power in
  let T_final := np_max T_chamber_wall in
  Equilibrium.time_constant r <> 0 ->
  T_time INITIAL_TEMP T_final (Equilibrium.time_constant r) 0 = INITIAL_TEMP
  /\ T_time INITIAL_TEMP T_final (Equilibrium.time_constant r)
            (Equilibrium.time_to_90_percent r)
     = T_90 INITIAL_TEMP T_final
  /\ T_time INITIAL_TEMP T_final (Equilibrium.time_constant r)
            (Equilibrium.time_to_99_percent r)
     = T_99 INITIAL_TEMP T_final.
Proof.
  intros r T_final Htau.
  assert (H90 : Equilibrium.time_to_90_percent r
                = - Equilibrium.time_constant r * ln 0.1) by reflexivity.
  assert (H99 : Equilibrium.time_to_99_percent r
                = - Equilibrium.time_constant r * ln 0.01) by reflexivity.
  rewrite H90, H99. generalize dependent (Equilibrium.time_constant r).
  intros tau Htau _ _. unfold T_time, T_90, T_99.
  replace (- 0 / tau) with 0 by (field; exact Htau).
  replace (- (- tau * ln 0.1) / tau) with (ln 0.1) by (field; exact Htau).
  replace (- (- tau * ln 0.01) / tau) with (ln 0.01) by (field; exact Htau).
  rewrite exp_0, !exp_ln by lra. repeat split; lra.
Qed.

End Model.

(** ** Closed instances *)

(** C7, as stated, fails: a callback that raises [KeyboardInterrupt], which
    is not an instance of [Exception], ends the solver with that exception,
    whatever the interpolant; with no callback the same call returns. *)
Lemma callback_KeyboardInterrupt_aborts_solver :
  ~ exists interp : list R -> list R -> R -> R,
      (steady_state_simulation interp
         (Some (fun _ _ _ => cb_raises (mk_exception "KeyboardInterrupt" false)))
         1 0.5 0.05).1
      = (steady_state_simulation interp None 1 0.5 0.05).1.
Proof.
  intros [interp H].
  rewrite (callback_exception_propagates interp _
             (mk_exception "KeyboardInterrupt" false)) in H
    by (reflexivity || lia).
  destruct (steady_state_simulation_returns_some interp None 1 0.5 0.05 I ltac:(lia))
    as (Tw & Tc & Tch & n & evs & Hrun).
  rewrite Hrun in H. discriminate.
Qed.

(** C2 at a run of three iterations (a tolerance of 0 is never met), and
    the step of line 289 at a coolant at 320 K and a chamber fluid at
    300 K. *)
Lemma returned_chamber_inlet_is_coolant_outlet_witness :
  exists (Tw Tc Tch : list R) (evs : list event),
    steady_state_simulation first_value_interp None 3 0 0.05
    = (returns Tw Tc Tch 3, evs)
    /\ Tch !!! (NUM_STATIONS - 1)%nat = Tc !!! (NUM_STATIONS - 1)%nat
    /\ replicate NUM_STATIONS 300 !!! (NUM_STATIONS - 1)%nat = 300
    /\ chamber_pass first_value_interp heater_power_distribution
         (replicate NUM_STATIONS 300) (replicate NUM_STATIONS 320)
         (replicate NUM_STATIONS 300) !!! (NUM_STATIONS - 1)%nat
       = 320.
Proof.
  assert (Hnever : forall j : nat, ~ max_diff_at first_value_interp 0.05 j < 0).
  { intros j. pose proof (max_diff_at_nonneg first_value_interp 0.05 j). lra. }
  destruct (steady_state_simulation_runs_all first_value_interp None 3 0 0.05
              I ltac:(lia) Hnever) as (Tw & Tc & Tch & evs & Hrun).
  exists Tw, Tc, Tch, evs. split; [exact Hrun|].
  destruct (returned_chamber_inlet_is_coolant_outlet
              first_value_interp None 3 0 0.05 Tw Tc Tch 3 evs Hrun)
    as (_ & _ & Hlast & Hstep).
  split; [exact Hlast|].
  assert (H19 : (NUM_STATIONS - 1 < NUM_STATIONS)%nat) by (unfold NUM_STATIONS; lia).
  split; [apply lookup_total_replicate_2; exact H19|].
  rewrite (Hstep heater_power_distribution (replicate NUM_STATIONS 300)
             (replicate NUM_STATIONS 320) (replicate NUM_STATIONS 300)
             (length_replicate NUM_STATIONS 320) (length_replicate NUM_STATIONS 300)).
  apply lookup_total_replicate_2; exact H19.
Defined.

(** C10 at a run of at most three iterations. *)
Lemma returned_coolant_inlet_is_initial_witness :
  exists (Tw Tc Tch : list R) (n : Z) (evs : list event),
    steady_state_simulation first_value_interp None 3 0.5 0.05
    = (returns Tw Tc Tch n, evs)
    /\ Tc !!! 0%nat = 300.
Proof.
  destruct (steady_state_simulation_returns_some first_value_interp None 3 0.5 0.05
              I ltac:(lia)) as (Tw & Tc & Tch & n & evs & Hrun).
  exists Tw, Tc, Tch, n, evs. split; [exact Hrun|].
  exact (proj1 (returned_coolant_inlet_is_initial
                  first_value_interp None 3 0.5 0.05 Tw Tc Tch n evs Hrun)).
Defined.

(** C6 at the default factor 0.05, between the second and the third
    iteration. *)
Lemma relaxation_factor_never_increases_witness :
  0 <= 0.05
  /\ relaxation_factor (locals_after first_value_interp 0.05 2)
     <= relaxation_factor (locals_after first_value_interp 0.05 1).
Proof.
  assert (H : 0 <= 0.05) by lra.
  split; [exact H|].
  exact (proj2 (proj1 (relaxation_factor_never_increases
                         first_value_interp 0.05 1 H))).
Defined.

(** C7 at a callback that raises [ValueError] in every call. *)
Lemma callback_Exception_never_propagates_witness :
  raises_only_Exception (fun _ _ _ => cb_raises (mk_exception "ValueError" true))
  /\ (steady_state_simulation first_value_interp
        (Some (fun _ _ _ => cb_raises (mk_exception "ValueError" true)))
        3 0.5 0.05).1
     = (steady_state_simulation first_value_interp None 3 0.5 0.05).1.
Proof.
  assert (H : raises_only_Exception
                (fun _ _ _ => cb_raises (mk_exception "ValueError" true))).
  { intros i n d e Heq. injection Heq as <-. reflexivity. }
  split; [exact H|].
  exact (proj1 (callback_Exception_never_propagates first_value_interp
                  (fun _ _ _ => cb_raises (mk_exception "ValueError" true))
                  3 0.5 0.05 H)).
Defined.

(** C8 at the default heater power of 70 W. *)
Lemma equilibrium_time_formulas_witness :
  HEATER_POWER > 0
  /\ Equilibrium.time_to_99_percent
       (calculate_equilibrium_time first_value_interp
          (replicate NUM_STATIONS 300) HEATER_POWER)
     = 2 * Equilibrium.time_to_90_percent
           (calculate_equilibrium_time first_value_interp
              (replicate NUM_STATIONS 300) HEATER_POWER).
Proof.
  assert (H : HEATER_POWER > 0) by (unfold HEATER_POWER; lra).
  split; [exact H|].
  exact (proj2 (proj2 (proj2 (proj2
           (equilibrium_time_formulas first_value_interp
              (replicate NUM_STATIONS 300) HEATER_POWER H))))).
Defined.


Lemma reynolds_of_large_mass_flow :
  Flow.reynolds
    (calculate_flow_parameters first_value_interp 300 chamber_inner_area 1 PRESSURE)
  > 4000.
Proof.
  unfold calculate_flow_parameters. rewrite duct_constants_chamber.
  cbn [Flow.reynolds]. unfold hydrogen_properties, first_value_interp.
  cbn [Gas.density Gas.viscosity]. unfold hydrogen_rho_data, hydrogen_mu_data.
  cbn [hd]. unfold chamber_inner_area. rewrite chamber_inner_radius_value.
  unfold CHAMBER_INNER_DIAMETER.
  pose proof PI_RGT_0 as Hpos. pose proof PI_4 as Hle.
  set (A := PI * 0.01 ^ 2).
  assert (HA : 0 < A <= 0.0004) by (unfold A; lra).
  assert (HX : 3000 < 1 / (0.8 * A)) by (apply div_gt_lower; lra).
  set (X := 1 / (0.8 * A)) in *. lra.
Qed.

Lemma reynolds_of_large_mass_flow_bounds :
  5.6e6
  < Flow.reynolds
      (calculate_flow_parameters first_value_interp 300 chamber_inner_area 1 PRESSURE)
  < 7.5e6.
Proof.
  unfold calculate_flow_parameters. rewrite duct_constants_chamber.
  cbn [Flow.reynolds]. unfold hydrogen_properties, first_value_interp.
  cbn [Gas.density Gas.viscosity]. unfold hydrogen_rho_data, hydrogen_mu_data.
  cbn [hd]. unfold chamber_inner_area. rewrite chamber_inner_radius_value.
  unfold CHAMBER_INNER_DIAMETER.
  pose proof PI_gt_3 as Hlo. pose proof PI_4 as Hle.
  set (A := PI * 0.01 ^ 2).
  assert (HA : 0.0003 < A <= 0.0004) by (unfold A; lra).
  assert (HX : 3120 < 1 / (0.8 * A)) by (apply div_gt_lower; lra).
  assert (HX' : 1 / (0.8 * A) < 4167) by (apply div_lt_upper; lra).
  set (X := 1 / (0.8 * A)) in *.
  split; [apply div_gt_lower; lra | apply div_lt_upper; lra].
Qed.

Lemma ln_inv_pow10 (n : nat) : ln (/ 10 ^ n) = - INR n * ln 10.
Proof.
  assert (H : 0 < 10 ^ n) by (apply pow_lt; lra).
  rewrite ln_Rinv by exact H. clear H.
  induction n as [|n IH].
  - simpl. rewrite ln_1. lra.
  - rewrite S_INR. cbn [pow]. assert (0 < 10 ^ n) by (apply pow_lt; lra).
    rewrite ln_mult by lra. lra.
Qed.

Lemma log10_between (x : R) : 1e-5 < x < 1e-4 -> -5 < log10 x < -4.
Proof.
  intros [H1 H2]. pose proof ln_10_gt_1 as Hp. unfold log10.
  assert (Hl : ln 1e-5 < ln x) by (apply ln_increasing; lra).
  assert (Hu : ln x < ln 1e-4) by (apply ln_increasing; lra).
  replace 1e-5 with (/ 10 ^ 5) in Hl by (simpl; lra).
  replace 1e-4 with (/ 10 ^ 4) in Hu by (simpl; lra).
  rewrite ln_inv_pow10 in Hl, Hu. simpl in Hl, Hu.
  split; apply Rmult_lt_reg_r with (ln 10); try lra;
    unfold Rdiv; rewrite Rmult_assoc, Rinv_l by lra; lra.
Qed.

(** One round of line 169 in the chamber duct, from any estimate of at least
    0.0049 at a Reynolds number above 5.6e6, gives at least 0.01. *)
Lemma colebrook_update_chamber_lower (reynolds f : R) :
  5.6e6 < reynolds -> 0.0049 <= f ->
  0.01 <= colebrook_update CHAMBER_ROUGHNESS CHAMBER_INNER_DIAMETER reynolds f.
Proof.
  intros HRe Hf. unfold colebrook_update.
  assert (Hs : 0.07 <= sqrt f).
  { replace 0.07 with (sqrt (0.07 * 0.07)) by (apply sqrt_square; lra).
    apply sqrt_le_1_alt. lra. }
  assert (Hprod : 392000 < reynolds * sqrt f) by nra.
  assert (Ht : 0 < 2.51 / (reynolds * sqrt f) < 1e-5).
  { split; [apply Rdiv_lt_0_compat; lra | apply div_lt_upper; lra]. }
  assert (Ha : 1e-5 < CHAMBER_ROUGHNESS / (3.7 * CHAMBER_INNER_DIAMETER) < 2e-5).
  { unfold CHAMBER_ROUGHNESS, CHAMBER_INNER_DIAMETER.
    split; [apply div_gt_lower; lra | apply div_lt_upper; lra]. }
  destruct (log10_between (CHAMBER_ROUGHNESS / (3.7 * CHAMBER_INNER_DIAMETER)
                           + 2.51 / (reynolds * sqrt f))) as [Hl Hu]; [lra|].
  set (L := log10 _) in *.
  assert (Hy : 0.1 < 1 / (-2 * L)) by (apply div_gt_lower; lra).
  set (y := 1 / (-2 * L)) in *. simpl. nra.
Qed.

(** C5 at a mass flow of 1 kg/s through the chamber, where the Reynolds
    number is above 4000: the loop runs at least one round and the friction
    factor returned, at least 0.01, is not the Blasius value, below 0.007,
    that the loop started from. *)
Lemma colebrook_refinement_at_most_ten_witness :
  let fp :=
    calculate_flow_parameters first_value_interp 300 chamber_inner_area 1 PRESSURE in
  Flow.reynolds fp > 4000
  /\ 0.316 * Rpower (Flow.reynolds fp) (-0.25) < 0.007
  /\ 0.01 <= Flow.friction_factor fp
  /\ exists k : nat,
      (1 <= k <= 10)%nat
      /\ Flow.friction_factor fp
         = colebrook_estimate (duct_constants chamber_inner_area).2
             (duct_constants chamber_inner_area).1 (Flow.reynolds fp)
             (smooth_friction_factor (Flow.reynolds fp)) k.
Proof.
  intros fp. split; [exact reynolds_of_large_mass_flow|].
  destruct (colebrook_refinement_at_most_ten first_value_interp 300
              chamber_inner_area 1 PRESSURE reynolds_of_large_mass_flow)
    as ((H0 & Hrec & _) & k & Hk & Heq & _ & Hstop & _).
  fold fp in H0, Hrec, Heq, Hstop.
  pose proof reynolds_of_large_mass_flow_bounds as [HRl HRu].
  fold fp in HRl, HRu.
  set (est := colebrook_estimate (duct_constants chamber_inner_area).2
                (duct_constants chamber_inner_area).1 (Flow.reynolds fp)
                (smooth_friction_factor (Flow.reynolds fp))) in *.
  assert (Hest0 : 0.0059 < est 0%nat < 0.0066).
  { rewrite H0.
    pose proof (Rpower_neg_quarter_lt (Flow.reynolds fp) 48
                  ltac:(lra) ltac:(lra) ltac:(simpl; lra)) as Hu.
    pose proof (Rpower_neg_quarter_gt (Flow.reynolds fp) 53
                  ltac:(lra) ltac:(lra) ltac:(simpl; lra)) as Hl.
    lra. }
  assert (Hest : forall j : nat, 0.01 <= est (S j)).
  { assert (Hupd : forall j : nat,
               est (S j)
               = colebrook_update CHAMBER_ROUGHNESS CHAMBER_INNER_DIAMETER
                   (Flow.reynolds fp) (est j)).
    { intros j. rewrite Hrec. rewrite duct_constants_chamber. reflexivity. }
    induction j as [|j IH]; rewrite Hupd;
      apply colebrook_update_chamber_lower; lra. }
  assert (Hk1 : (1 <= k)%nat).
  { destruct k as [|k']; [|lia]. exfalso.
    specialize (Hstop ltac:(lia)). specialize (Hest 0%nat).
    apply Rabs_def2 in Hstop. lra. }
  split; [rewrite <- H0; lra|].
  split.
  - rewrite Heq. destruct k as [|k']; [lia|]. apply Hest.
  - exists k. split; [lia | exact Heq].
Defined.

(** X1 at the default limits and no callback. *)
Lemma steady_state_simulation_terminates_witness :
  exists (k : nat) (evs : list event),
    (steady_state_simulation first_value_interp None 2000 0.5 0.05).1
    = returns (T_chamber_wall (locals_after first_value_interp 0.05 k))
              (T_cooling_fluid (locals_after first_value_interp 0.05 k))
              (T_chamber_fluid (locals_after first_value_interp 0.05 k))
              (Z.of_nat k)
    /\ (1 <= Z.of_nat k <= 2000)%Z.
Proof.
  destruct (steady_state_simulation_terminates first_value_interp None 2000 0.5 0.05
              I ltac:(lia)) as (k & evs & Hrun & Hk & _).
  exists k, evs. split; [now rewrite Hrun | exact Hk].
Defined.

(** X2 at [max_iterations = 1] and a relaxation factor of 0, where the
    wall does not move and the metric is 0. *)
Lemma convergence_in_last_iteration_warns_witness :
  exists evs0 : list event,
    (steady_state_simulation first_value_interp None 1 0.5 0).2
    = evs0 ++ [ev_print_converged 1;
               ev_print_warning_max_iterations;
               ev_print_current_max_diff 0].
Proof.
  assert (Hbefore : forall j : nat, (S j < Z.to_nat 1)%nat ->
                                    ~ max_diff_at first_value_interp 0 j < 0.5).
  { intros j Hj. cbn in Hj. lia. }
  assert (Hlast : max_diff_at first_value_interp 0 (Z.to_nat 1 - 1) < 0.5).
  { rewrite max_diff_at_zero_relaxation. lra. }
  destruct (convergence_in_last_iteration_warns first_value_interp None 1 0.5 0
              I ltac:(lia) Hbefore Hlast) as [evs0 Hevs].
  exists evs0. rewrite Hevs. now rewrite max_diff_at_zero_relaxation.
Defined.

Lemma first_value_density (T : R) :
  Gas.density (hydrogen_properties first_value_interp T) = 0.8.
Proof. reflexivity. Qed.

Lemma first_value_viscosity (T : R) :
  Gas.viscosity (hydrogen_properties first_value_interp T) = 8.9e-6.
Proof. reflexivity. Qed.

Lemma first_value_wall_specific_heat (T : R) :
  Solid.specific_heat (inconel_properties first_value_interp T) = 435.
Proof. reflexivity. Qed.

Lemma length_replicate_stations (x : R) :
  length (replicate NUM_STATIONS x) = NUM_STATIONS.
Proof. apply length_replicate. Qed.

(** X3 at station 5 of a wall at 300 K with the fluids at 310 K and 400 K. *)
Lemma wall_pass_in_place_is_snapshot_witness :
  (5 < NUM_STATIONS)%nat
  /\ wall_pass first_value_interp 0.05 (heater_power_distribution)
       (replicate NUM_STATIONS 310) (replicate NUM_STATIONS 400)
       (replicate NUM_STATIONS 300) !!! 5%nat
     = wall_station first_value_interp 0.05 (heater_power_distribution)
         (replicate NUM_STATIONS 310) (replicate NUM_STATIONS 400)
         (replicate NUM_STATIONS 300) 5 !!! 5%nat.
Proof.
  assert (H : (5 < NUM_STATIONS)%nat) by (unfold NUM_STATIONS; lia).
  split; [exact H|].
  exact (wall_pass_in_place_is_snapshot first_value_interp 0.05
           heater_power_distribution (replicate NUM_STATIONS 310)
           (replicate NUM_STATIONS 400) (replicate NUM_STATIONS 300) 5 H
           (length_replicate_stations 300)).
Defined.

(** X4 at a coolant array that differs from the uniform one at station 5. *)
Lemma coolant_pass_depends_on_inlet_only_witness :
  replicate NUM_STATIONS 300 !!! 0%nat
  = <[5%nat := 400]> (replicate NUM_STATIONS 300) !!! 0%nat
  /\ coolant_pass first_value_interp (replicate NUM_STATIONS 350)
       (replicate NUM_STATIONS 300)
     = coolant_pass first_value_interp (replicate NUM_STATIONS 350)
         (<[5%nat := 400]> (replicate NUM_STATIONS 300)).
Proof.
  assert (H0 : replicate NUM_STATIONS 300 !!! 0%nat
               = <[5%nat := 400]> (replicate NUM_STATIONS 300) !!! 0%nat).
  { rewrite list_lookup_total_insert_ne by lia. reflexivity. }
  assert (Hl : length (<[5%nat := 400]> (replicate NUM_STATIONS 300)) = NUM_STATIONS).
  { rewrite length_insert. apply length_replicate. }
  split; [exact H0|].
  exact (proj1 (coolant_pass_depends_on_inlet_only first_value_interp
                  (replicate NUM_STATIONS 350) (replicate NUM_STATIONS 300)
                  (<[5%nat := 400]> (replicate NUM_STATIONS 300))
                  (length_replicate_stations 300) Hl H0)).
Defined.

(** X5 at two different chamber-fluid arrays. *)
Lemma chamber_pass_depends_on_coolant_outlet_only_witness :
  chamber_pass first_value_interp heater_power_distribution
    (replicate NUM_STATIONS 350) (replicate NUM_STATIONS 320)
    (replicate NUM_STATIONS 300)
  = chamber_pass first_value_interp heater_power_distribution
      (replicate NUM_STATIONS 350) (replicate NUM_STATIONS 320)
      (replicate NUM_STATIONS 900).
Proof.
  exact (proj1 (chamber_pass_depends_on_coolant_outlet_only first_value_interp
                  heater_power_distribution (replicate NUM_STATIONS 350)
                  (replicate NUM_STATIONS 320) (replicate NUM_STATIONS 320)
                  (replicate NUM_STATIONS 300) (replicate NUM_STATIONS 900)
                  (length_replicate_stations 300) (length_replicate_stations 900)
                  eq_refl)).
Defined.

(** X6 at a wall at 300 K and a coolant array that holds 400 K at station 5. *)
Lemma coolant_pass_isothermal_witness :
  <[5%nat := 400]> (replicate NUM_STATIONS 300) !!! 0%nat = 300
  /\ coolant_pass first_value_interp (replicate NUM_STATIONS 300)
       (<[5%nat := 400]> (replicate NUM_STATIONS 300))
     = replicate NUM_STATIONS 300.
Proof.
  assert (H0 : <[5%nat := 400]> (replicate NUM_STATIONS 300) !!! 0%nat = 300).
  { rewrite list_lookup_total_insert_ne by lia. reflexivity. }
  assert (Hl : length (<[5%nat := 400]> (replicate NUM_STATIONS 300)) = NUM_STATIONS).
  { rewrite length_insert. apply length_replicate. }
  assert (Hw : forall i : nat, (i < NUM_STATIONS - 1)%nat ->
                               replicate NUM_STATIONS 300 !!! i = 300).
  { intros i Hi. apply lookup_total_replicate_2. unfold NUM_STATIONS in *. lia. }
  split; [exact H0|].
  exact (coolant_pass_isothermal first_value_interp (replicate NUM_STATIONS 300)
           (<[5%nat := 400]> (replicate NUM_STATIONS 300)) 300 Hw Hl H0).
Defined.

(** X7 at a run of at most five iterations. *)
Lemma returned_arrays_and_count_witness :
  exists (Tw Tc Tch : list R) (n : Z) (evs : list event),
    steady_state_simulation first_value_interp None 5 0.5 0.05
    = (returns Tw Tc Tch n, evs)
    /\ length Tw = NUM_STATIONS /\ (1 <= n <= 5)%Z.
Proof.
  destruct (steady_state_simulation_returns_some first_value_interp None 5 0.5 0.05
              I ltac:(lia)) as (Tw & Tc & Tch & n & evs & Hrun).
  exists Tw, Tc, Tch, n, evs. split; [exact Hrun|].
  destruct (returned_arrays_and_count first_value_interp None 5 0.5 0.05
              Tw Tc Tch n evs Hrun) as (HTw & _ & _ & Hn).
  split; [exact HTw | exact Hn].
Defined.

(** X8 at the default limit and tolerance. *)
Lemma zero_relaxation_converges_at_once_witness :
  0 < 0.5
  /\ exists (Tch : list R) (evs : list event),
      steady_state_simulation first_value_interp None 2000 0.5 0
      = (returns (replicate NUM_STATIONS INITIAL_TEMP)
                 (replicate NUM_STATIONS INITIAL_TEMP) Tch 1, evs).
Proof.
  assert (H : 0 < 0.5) by lra.
  split; [exact H|].
  destruct (zero_relaxation_converges_at_once first_value_interp None 2000 0.5
              I ltac:(lia) H) as (Tch & evs & Hrun & _).
  exists Tch, evs. exact Hrun.
Defined.

(** X9 at a tolerance of 0 and three iterations. *)
Lemma nonpositive_tolerance_never_converges_witness :
  0 <= 0
  /\ exists (Tw Tc Tch : list R) (evs0 : list event),
      steady_state_simulation first_value_interp None 3 0 0.05
      = (returns Tw Tc Tch 3,
         evs0 ++ [ev_print_warning_max_iterations;
                  ev_print_current_max_diff
                    (max_diff_at first_value_interp 0.05 (Z.to_nat 3 - 1))])
      /\ forall z : Z, ~ In (ev_print_converged z) evs0.
Proof.
  assert (H : 0 <= 0) by lra.
  split; [exact H|].
  exact (nonpositive_tolerance_never_converges first_value_interp None 3 0 0.05
           I ltac:(lia) H).
Defined.

Lemma chamber_inner_area_nonzero : chamber_inner_area <> 0.
Proof. rewrite chamber_inner_area_value. pose proof PI_RGT_0. lra. Qed.

(** X10 at the chamber and the module's mass flow. *)
Lemma flow_parameters_conserve_mass_witness :
  chamber_inner_area <> 0
  /\ Gas.density (hydrogen_properties first_value_interp 300)
     * Flow.velocity (calculate_flow_parameters first_value_interp 300
                        chamber_inner_area MASS_FLOW_RATE PRESSURE)
     * chamber_inner_area
     = MASS_FLOW_RATE.
Proof.
  split; [exact chamber_inner_area_nonzero|].
  assert (Hrho : Gas.density (hydrogen_properties first_value_interp 300) <> 0)
    by (rewrite first_value_density; lra).
  assert (Hmu : Gas.viscosity (hydrogen_properties first_value_interp 300) <> 0)
    by (rewrite first_value_viscosity; lra).
  exact (proj1 (flow_parameters_conserve_mass first_value_interp 300
                  chamber_inner_area MASS_FLOW_RATE PRESSURE
                  Hrho chamber_inner_area_nonzero Hmu)).
Defined.

(** X11 at the chamber duct. *)
Lemma module_mass_flow_is_laminar_witness :
  8.9e-6 <= Gas.viscosity (hydrogen_properties first_value_interp 300)
  /\ 0 < Flow.reynolds (calculate_flow_parameters first_value_interp 300
                          chamber_inner_area MASS_FLOW_RATE PRESSURE) < 38.
Proof.
  assert (Hrho : Gas.density (hydrogen_properties first_value_interp 300) <> 0)
    by (rewrite first_value_density; lra).
  assert (Hmu : 8.9e-6 <= Gas.viscosity (hydrogen_properties first_value_interp 300))
    by (rewrite first_value_viscosity; lra).
  split; [exact Hmu|].
  exact (proj1 (module_mass_flow_is_laminar first_value_interp 300 300 "chamber"
                  CHAMBER_INNER_DIAMETER Hrho Hmu)).
Defined.

(** X12 at the chamber duct, Re = 100 and Pr = 1. *)
Lemma laminar_nusselt_bounds_witness :
  100 < 2300
  /\ 3.66 <= nusselt_number CHAMBER_INNER_DIAMETER 100 1.
Proof.
  assert (H : 100 < 2300) by lra.
  assert (Hx : 0 <= CHAMBER_INNER_DIAMETER / CHAMBER_HEIGHT * 100 * 1)
    by (unfold CHAMBER_INNER_DIAMETER, CHAMBER_HEIGHT; lra).
  split; [exact H|].
  exact (proj1 (laminar_nusselt_bounds CHAMBER_INNER_DIAMETER 100 1 H Hx)).
Defined.

Lemma colebrook_white_sample_root :
  colebrook_white 0 1 (12.55 * Rpower 10 2.5) 0.04 = 0.
Proof.
  unfold colebrook_white, log10.
  assert (Hs : sqrt 0.04 = 0.2).
  { replace 0.04 with (0.2 * 0.2) by lra. apply sqrt_square. lra. }
  rewrite Hs.
  assert (HP : 0 < Rpower 10 2.5) by apply exp_pos.
  replace (0 / (3.7 * 1) + 2.51 / (12.55 * Rpower 10 2.5 * 0.2))
    with (/ Rpower 10 2.5) by (field_simplify_eq; [lra | repeat split; lra]).
  rewrite ln_Rinv by assumption. unfold Rpower. rewrite ln_exp.
  assert (Hln : ln 10 <> 0) by (pose proof ln_10_gt_1; lra).
  field_simplify_eq; [lra | repeat split; lra].
Qed.

(** X13 at a root built by hand: a smooth pipe, [f = 0.04] and the Reynolds
    number [12.55 * 10 ** 2.5] that makes it a root. *)
Lemma colebrook_root_is_returned_witness :
  0 < 0.04
  /\ colebrook_white 0 1 (12.55 * Rpower 10 2.5) 0.04 = 0
  /\ colebrook_loop 10 0 1 (12.55 * Rpower 10 2.5) 0.04 = 0.04.
Proof.
  assert (H : 0 < 0.04) by lra.
  split; [exact H|]. split; [exact colebrook_white_sample_root|].
  exact (colebrook_root_is_returned 10 0 1 (12.55 * Rpower 10 2.5) 0.04 H
           colebrook_white_sample_root).
Defined.

(** X14 at the default heater power. *)
Lemma equilibrium_times_are_ordered_witness :
  HEATER_POWER > 0
  /\ Equilibrium.time_to_90_percent
       (calculate_equilibrium_time first_value_interp
          (replicate NUM_STATIONS 300) HEATER_POWER)
     < Equilibrium.time_to_99_percent
         (calculate_equilibrium_time first_value_interp
            (replicate NUM_STATIONS 300) HEATER_POWER).
Proof.
  assert (H : HEATER_POWER > 0) by (unfold HEATER_POWER; lra).
  assert (Hcp : Solid.specific_heat
                  (inconel_properties first_value_interp
                     (np_mean (replicate NUM_STATIONS 300))) > 0)
    by (rewrite first_value_wall_specific_heat; lra).
  split; [exact H|].
  exact (proj2 (proj2 (equilibrium_times_are_ordered first_value_interp
                         (replicate NUM_STATIONS 300) HEATER_POWER H Hcp))).
Defined.

(** X15 at twice the default heater power. *)
Lemma equilibrium_times_scale_with_power_witness :
  HEATER_POWER <> 0
  /\ Equilibrium.time_constant
       (calculate_equilibrium_time first_value_interp
          (replicate NUM_STATIONS 300) (2 * HEATER_POWER))
     = Equilibrium.time_constant
         (calculate_equilibrium_time first_value_interp
            (replicate NUM_STATIONS 300) HEATER_POWER) / 2.
Proof.
  assert (H : HEATER_POWER <> 0) by (unfold HEATER_POWER; lra).
  assert (H2 : 2 <> 0) by lra.
  split; [exact H|].
  exact (proj1 (equilibrium_times_scale_with_power first_value_interp
                  (replicate NUM_STATIONS 300) HEATER_POWER 2 H H2)).
Defined.

Lemma quiet_callback_raises_only_Exception :
  raises_only_Exception (fun _ _ _ => cb_returns).
Proof. intros i n d e H. discriminate H. Qed.

(** X16 at the one call of a run limited to one iteration. *)
Lemma progress_bar_value_in_range_witness :
  In (0%Z, 1%Z, max_diff_at first_value_interp 0.05 0)
     (callback_calls
        (steady_state_simulation first_value_interp
           (@Some callback (fun _ _ _ => cb_returns)) 1 0.5 0.05).2)
  /\ exists p : Z, progress_percent 0 1 = Some p /\ (30 <= p <= 99)%Z.
Proof.
  assert (Hin : In (0%Z, 1%Z, max_diff_at first_value_interp 0.05 0)
                   (callback_calls
                      (steady_state_simulation first_value_interp
                         (@Some callback (fun _ _ _ => cb_returns)) 1 0.5 0.05).2)).
  { pose proof (steady_state_simulation_eq first_value_interp
                  (@Some callback (fun _ _ _ => cb_returns)) 1 0.5 0.05
                  quiet_callback_raises_only_Exception) as Heq.
    cbv zeta in Heq. rewrite Heq. cbn [snd].
    rewrite callback_calls_app. apply in_or_app. left.
    pose proof (run_events_callback first_value_interp
                  (fun _ _ _ => cb_returns) 1 0.5 0.05 (Z.to_nat 1) 0
                  quiet_callback_raises_only_Exception) as Hc.
    cbv zeta in Hc. destruct Hc as [Hc _]. rewrite Hc.
    change (Z.to_nat 1) with 1%nat.
    destruct (iterations_run_bounds first_value_interp 0.5 0.05 0 1) as [Hle Hge].
    assert (Hk : iterations_run first_value_interp 0.5 0.05 0 1 = 1%nat) by lia.
    rewrite Hk. cbn [map seq Z.of_nat]. left. reflexivity. }
  split; [exact Hin|].
  exact (proj2 (proj2 (progress_bar_value_in_range first_value_interp
                         (@Some callback (fun _ _ _ => cb_returns)) 1 0.5 0.05
                         0 1 (max_diff_at first_value_interp 0.05 0) Hin))).
Defined.

(** X17 at the caller's largest number of stations, 50. *)
Lemma velocity_profiles_of_returned_arrays_witness :
  exists (Tw Tc Tch : list R) (n : Z) (evs : list event),
    steady_state_simulation first_value_interp None 5 0.5 0.05
    = (returns Tw Tc Tch n, evs)
    /\ velocity_profiles first_value_interp 50 Tc Tch
         cooling_area chamber_inner_area = None.
Proof.
  destruct (steady_state_simulation_returns_some first_value_interp None 5 0.5 0.05
              I ltac:(lia)) as (Tw & Tc & Tch & n & evs & Hrun).
  exists Tw, Tc, Tch, n, evs. split; [exact Hrun|].
  assert (H : (NUM_STATIONS < 50)%nat) by (unfold NUM_STATIONS; lia).
  exact (proj1 (velocity_profiles_of_returned_arrays first_value_interp None 5 0.5
                  0.05 Tw Tc Tch n evs 50 cooling_area chamber_inner_area Hrun) H).
Defined.

(** X18 at a chamber diameter of 30 mm. *)
Lemma changed_diameter_gets_cooling_duct_witness :
  0.03 > 0
  /\ 0.03 <> CHAMBER_INNER_DIAMETER
  /\ Flow.reynolds
       (calculate_flow_parameters first_value_interp 300
          (chamber_inner_area_local 0.03) MASS_FLOW_RATE PRESSURE)
     = Gas.density (hydrogen_properties first_value_interp 300)
       * Flow.velocity
           (calculate_flow_parameters first_value_interp 300
              (chamber_inner_area_local 0.03) MASS_FLOW_RATE PRESSURE)
       * (2 * COOLING_GAP)
       / Gas.viscosity (hydrogen_properties first_value_interp 300).
Proof.
  assert (H : 0.03 > 0) by lra.
  assert (Hne : 0.03 <> CHAMBER_INNER_DIAMETER)
    by (unfold CHAMBER_INNER_DIAMETER; lra).
  split; [exact H|]. split; [exact Hne|].
  exact (proj1 (changed_diameter_gets_cooling_duct first_value_interp 300 0.03
                  H Hne)).
Defined.

(** X19 at the module's chamber, a quarter of the way up. *)
Lemma nozzle_radius_bounds_witness :
  0 <= 0.01 <= 0.04
  /\ 0.7 * 0.01 <= nozzle_radius 0.01 0.04 0.01 <= 1.5 * 0.01.
Proof.
  assert (H : 0 < 0.04) by lra.
  assert (Hr : 0 <= 0.01) by lra.
  assert (Hz : 0 <= 0.01 <= 0.04) by lra.
  split; [exact Hz|].
  exact (proj1 (nozzle_radius_bounds 0.01 0.04 0.01 H Hr Hz)).
Defined.

(** X20 after 40 iterations at the default factor. *)
Lemma relaxation_factor_geometric_floor_witness :
  0 < 0.05
  /\ 0 < 0.05 * 0.95 ^ (40 - 1)
       <= relaxation_factor (locals_after first_value_interp 0.05 40).
Proof.
  assert (H : 0 < 0.05) by lra.
  split; [exact H|].
  exact (relaxation_factor_geometric_floor first_value_interp 0.05 40 H).
Defined.

(** X21 at a heater power of 100 W. *)
Lemma equilibrium_curve_meets_markers_witness :
  Equilibrium.time_constant
    (calculate_equilibrium_time first_value_interp (replicate NUM_STATIONS 900) 100)
  <> 0
  /\ T_time INITIAL_TEMP (np_max (replicate NUM_STATIONS 900))
       (Equilibrium.time_constant
          (calculate_equilibrium_time first_value_interp
             (replicate NUM_STATIONS 900) 100))
       (Equilibrium.time_to_90_percent
          (calculate_equilibrium_time first_value_interp
             (replicate NUM_STATIONS 900) 100))
     = T_90 INITIAL_TEMP (np_max (replicate NUM_STATIONS 900)).
Proof.
  assert (H : Equilibrium.time_constant
                (calculate_equilibrium_time first_value_interp
                   (replicate NUM_STATIONS 900) 100) <> 0).
  { assert (H100 : 100 > 0) by lra.
    assert (Hcp : Solid.specific_heat
                    (inconel_properties first_value_interp
                       (np_mean (replicate NUM_STATIONS 900))) > 0)
      by (rewrite first_value_wall_specific_heat; lra).
    pose proof (equilibrium_time_constant_pos first_value_interp
                  (replicate NUM_STATIONS 900) 100 H100 Hcp) as Hpos.
    lra. }
  split; [exact H|].
  exact (proj1 (proj2 (equilibrium_curve_meets_markers first_value_interp
                         (replicate NUM_STATIONS 900) 100 H))).
Defined.
